(** * k8s_inspector: issue classification, report ordering and the apply gate

    A shallow embedding of [k8s_inspector.py].  Cluster objects are the
    records the Kubernetes client deserialises (optional attributes are
    [option]s, Python's [None]); an issue is the four-key dictionary the
    script builds; calls that can raise return in the [py] monad; the
    driver [main] runs against a [World] that answers its external calls
    and leaves a trace of the effects it performed. *)

From stdpp Require Import gmap strings list sorting.
From Stdlib Require Import ZArith QArith Lqa Ascii DecimalString.

Local Open Scope Z_scope.

(** ** Python values and idioms *)

(** Exceptions the script can meet.  [ApiException] is the only class the
    classifiers catch; [str_e] is what [str(e)] renders. *)
Inductive exn :=
| ApiException (str_e : string)
| TypeError (str_e : string)
| OtherError (str_e : string).

(** A call that returns or raises. *)
Inductive py (A : Type) :=
| Ret (a : A)
| Raise (e : exn).
Arguments Ret {A} a.
Arguments Raise {A} e.

Definition py_bind {A B} (m : py A) (k : A -> py B) : py B :=
  match m with Ret a => k a | Raise e => Raise e end.

(** The line feed of the ["\n"] escapes. *)
Definition nl : string := String (Ascii.ascii_of_nat 10) EmptyString.

(** [str(n)] for an [int]. *)
Definition str_of_Z (z : Z) : string := NilZero.string_of_int (Z.to_int z).
Definition str_of_nat (n : nat) : string := NilZero.string_of_uint (Nat.to_uint n).

(** [f"{x}"] for an attribute that may be [None]. *)
Definition fmt (o : option string) : string := default "None" o.

(** Truthiness of an optional string, an optional list and an optional
    integer: [None], the empty string, the empty list and [0] are falsy. *)
Definition truthy_str (o : option string) : bool :=
  match o with Some (String _ _) => true | _ => false end.

Definition or_str (o : option string) (dflt : string) : string :=
  if truthy_str o then default dflt o else dflt.

Definition or_list {A} (o : option (list A)) : list A := default [] o.

Definition or_0 (o : option Z) : Z :=
  match o with Some z => if z =? 0 then 0 else z | None => 0 end.

(** [x == "lit"] for an attribute that may be [None]. *)
Definition eq_str (o : option string) (lit : string) : bool :=
  match o with Some s => String.eqb s lit | None => false end.

(** [sub in s] for two strings. *)
Fixpoint contains (sub s : string) : bool :=
  String.prefix sub s ||
  match s with
  | EmptyString => false
  | String _ s' => contains sub s'
  end.

(** [sep.join(parts)]. *)
Definition join (sep : string) (parts : list string) : string :=
  String.concat sep parts.

(** [str.upper], on the ASCII letters the severities are made of. *)
Definition upper_ascii (c : Ascii.ascii) : Ascii.ascii :=
  let n := Ascii.nat_of_ascii c in
  if (Nat.leb 97 n && Nat.leb n 122)%bool then Ascii.ascii_of_nat (n - 32) else c.

Fixpoint upper (s : string) : string :=
  match s with
  | EmptyString => EmptyString
  | String c s' => String (upper_ascii c) (upper s')
  end.

(** A [datetime]: its POSIX [timestamp()] in seconds and its [str()]. *)
Record datetime := { timestamp : Q; str_datetime : string }.

Definition fmt_time (o : option datetime) : string :=
  match o with Some t => str_datetime t | None => "None" end.

(** ** Issues *)

Record Issue := {
  severity : string;
  title : string;
  detail : string;
  suggestion : string
}.

Global Instance Issue_eq_dec : EqDecision Issue.
Proof. solve_decision. Defined.

Definition listing_failure (what : string) (e : string) : Issue :=
  {| severity := "error";
     title := "Failed to list " +:+ what;
     detail := e;
     suggestion := "Check RBAC and connectivity" |}.

(** ** Deployments *)

Record DeploymentCondition := {
  dc_type : string;
  dc_status : string;
  dc_reason : option string;
  dc_message : option string
}.

Record Deployment := {
  dep_namespace : option string;
  dep_name : string;
  dep_spec_replicas : option Z;
  dep_status_available_replicas : option Z;
  dep_status_conditions : option (list DeploymentCondition)
}.

Record AppsV1Api := {
  list_namespaced_deployment : string -> py (list Deployment);
  list_deployment_for_all_namespaces : py (list Deployment)
}.

Definition replica_mismatch (d : Deployment) (spec_replicas status_replicas : Z) : Issue :=
  {| severity := "warning";
     title := "Replica mismatch: " +:+ fmt (dep_namespace d) +:+ "/" +:+ dep_name d;
     detail := "desired=" +:+ str_of_Z spec_replicas +:+ ", available=" +:+ str_of_Z status_replicas;
     suggestion := "Check recent rollout: kubectl rollout status deployment/{name} -n {ns}; inspect pods for crash/scheduling issues." |}.

Definition not_progressing (d : Deployment) (c : DeploymentCondition) : Issue :=
  {| severity := "warning";
     title := "Deployment not progressing: " +:+ fmt (dep_namespace d) +:+ "/" +:+ dep_name d;
     detail := fmt (dc_reason c) +:+ ": " +:+ fmt (dc_message c);
     suggestion := "kubectl describe deployment -n {ns} {name}; check events and ReplicaSets" |}.

(** The body of the [for d in deps] loop: what one deployment appends. *)
Definition deployment_issues (d : Deployment) : list Issue :=
  let spec_replicas := or_0 (dep_spec_replicas d) in
  let status_replicas := or_0 (dep_status_available_replicas d) in
  (if negb (spec_replicas =? status_replicas)
   then [replica_mismatch d spec_replicas status_replicas] else [])
  ++ flat_map (fun c =>
       if (String.eqb (dc_type c) "Progressing" && String.eqb (dc_status c) "False")%bool
       then [not_progressing d c] else [])
     (or_list (dep_status_conditions d)).

(** The listing call chosen by [if namespace:]. *)
Definition list_deployments (apps_v1 : AppsV1Api) (namespace : option string)
  : py (list Deployment) :=
  if truthy_str namespace
  then list_namespaced_deployment apps_v1 (default EmptyString namespace)
  else list_deployment_for_all_namespaces apps_v1.

Definition check_deployments (apps_v1 : AppsV1Api) (namespace : option string)
  : py (list Issue) :=
  match list_deployments apps_v1 namespace with
  | Raise (ApiException e) => Ret [listing_failure "deployments" e]
  | Raise e => Raise e
  | Ret deps => Ret (flat_map deployment_issues deps)
  end.

(** ** Nodes *)

Record NodeCondition := {
  nc_type : string;
  nc_status : option string;
  nc_last_heartbeat_time : option datetime;
  nc_last_transition_time : option datetime
}.

Record Node := {
  node_name : string;
  node_status_conditions : option (list NodeCondition);
  node_spec_unschedulable : option bool
}.

(** [{c.type: c for c in conds}]: a later condition of the same type
    replaces an earlier one. *)
Definition conditions_by_type (conds : list NodeCondition) : gmap string NodeCondition :=
  foldl (fun m c => <[nc_type c := c]> m) ∅ conds.

Definition node_not_ready (name : string) (ready : option NodeCondition) : Issue :=
  let last := match ready with
              | Some r => fmt_time (nc_last_heartbeat_time r)
              | None => "unknown"
              end in
  let status := match ready with
                | Some r => fmt (nc_status r)
                | None => "Unknown"
                end in
  {| severity := "warning";
     title := "Node NotReady: " +:+ name;
     detail := "Ready=" +:+ status +:+ " (lastHeartbeat=" +:+ last +:+ ")";
     suggestion := "Check node kubelet, disk pressure, network. "
       +:+ "Run: kubectl describe node {name} and check kubelet logs on the node." |}.

Definition node_cordoned (name : string) : Issue :=
  {| severity := "info";
     title := "Node Cordoned (unschedulable): " +:+ name;
     detail := "Node.spec.unschedulable is true";
     suggestion := "If maintenance finished, uncordon: kubectl uncordon " +:+ name |}.

Definition node_pressure (name t : string) (c : NodeCondition) : Issue :=
  {| severity := "warning";
     title := "Node pressure " +:+ t +:+ ": " +:+ name;
     detail := t +:+ " is True (lastTransition: "
               +:+ fmt_time (nc_last_transition_time c) +:+ ")";
     suggestion := "Investigate resource usage on node, evictions, and taints." |}.

(** [not ready or ready.status != "True"]. *)
Definition not_ready (ready : option NodeCondition) : bool :=
  match ready with
  | None => true
  | Some r => negb (eq_str (nc_status r) "True")
  end.

(** The body of the [for n in nodes] loop. *)
Definition node_issues (n : Node) : list Issue :=
  let name := node_name n in
  let conditions := conditions_by_type (or_list (node_status_conditions n)) in
  let ready := conditions !! "Ready" in
  (if not_ready ready then [node_not_ready name ready] else [])
  ++ (if default false (node_spec_unschedulable n) then [node_cordoned name] else [])
  ++ flat_map (fun t =>
       match conditions !! t with
       | Some c => if eq_str (nc_status c) "True" then [node_pressure name t c] else []
       | None => []
       end)
     ["DiskPressure"; "MemoryPressure"; "PIDPressure"].

(** ** Pods *)

Record ContainerStateWaiting := {
  waiting_reason : option string;
  waiting_message : option string
}.

Record ContainerStateTerminated := {
  terminated_reason : option string;
  terminated_signal : option Z;
  terminated_exit_code : Z;
  terminated_finished_at : option datetime
}.

Record ContainerState := {
  waiting : option ContainerStateWaiting;
  terminated : option ContainerStateTerminated
}.

Record ContainerStatus := {
  cs_name : string;
  cs_state : ContainerState;
  cs_last_state : ContainerState;
  cs_restart_count : Z
}.

Record Pod := {
  pod_namespace : option string;
  pod_name : string;
  pod_status_phase : option string;
  pod_status_message : option string;
  pod_status_container_statuses : option (list ContainerStatus)
}.

(** [f"{ns}/{name}:{cname}"]. *)
Definition container_ref (ns : option string) (name cname : string) : string :=
  fmt ns +:+ "/" +:+ name +:+ ":" +:+ cname.

Definition pod_pending (ns : option string) (name : string) (message : option string) : Issue :=
  {| severity := "warning";
     title := "Pod Pending: " +:+ fmt ns +:+ "/" +:+ name;
     detail := "Phase=Pending. Reason/message: " +:+ or_str message "none";
     suggestion := "kubectl describe pod -n {ns} {name} to see events; check PVCs, scheduling, node selectors, resource requests." |}.

Definition container_crash (ns : option string) (name cname : string)
    (reason : option string) (detail : string) : Issue :=
  {| severity := "warning";
     title := "Container CrashLoopBackOff/Error: " +:+ container_ref ns name cname;
     detail := "Reason=" +:+ fmt reason +:+ ". Message=" +:+ detail;
     suggestion := "Inspect logs: kubectl logs -n {ns} {name} -c {cname} --previous" +:+ nl
       +:+ "Common fixes: fix app exception, increase readinessTimeout, check env/config, use image with correct tag." |}.

Definition image_pull_problem (ns : option string) (name cname : string)
    (reason : option string) (detail : string) : Issue :=
  {| severity := "warning";
     title := "Image pull problem: " +:+ container_ref ns name cname;
     detail := "Reason=" +:+ fmt reason +:+ ". Message=" +:+ detail;
     suggestion := "Check image name/tag, registry secret, imagePullSecrets, network. Try docker pull locally or check registry auth." |}.

Definition container_config_error (ns : option string) (name cname : string)
    (detail : string) : Issue :=
  {| severity := "warning";
     title := "Container config error: " +:+ container_ref ns name cname;
     detail := detail;
     suggestion := "Likely bad command/args/env/volumeMounts. kubectl describe pod and check container spec and mounted volumes." |}.

Definition oom_killed (ns : option string) (name cname : string)
    (term : ContainerStateTerminated) : Issue :=
  {| severity := "warning";
     title := "OOMKilled / terminated container: " +:+ container_ref ns name cname;
     detail := "ExitCode=" +:+ str_of_Z (terminated_exit_code term)
               +:+ ", reason=" +:+ fmt (terminated_reason term)
               +:+ ", finish=" +:+ fmt_time (terminated_finished_at term);
     suggestion := "Increase memory requests/limits, check for memory leaks, review recent changes, examine logs prior to termination." |}.

Definition high_restart_count (ns : option string) (name cname : string)
    (restart_count : Z) : Issue :=
  {| severity := "warning";
     title := "High restart count: " +:+ container_ref ns name cname;
     detail := "Restarts=" +:+ str_of_Z restart_count;
     suggestion := "Investigate initialization,CrashLoopBackOff; check livenessProbe too aggressive, check readiness probe vs startup probe." |}.

(** [reason in (a, b, ...)]. *)
Definition reason_in (reason : option string) (lits : list string) : bool :=
  existsb (eq_str reason) lits.

(** The [if cs.state.waiting:] block with its [if/elif/elif] chain. *)
Definition waiting_issues (ns : option string) (name cname : string)
    (w : option ContainerStateWaiting) : list Issue :=
  match w with
  | None => []
  | Some w =>
      let reason := waiting_reason w in
      let detail := or_str (waiting_message w) EmptyString in
      if reason_in reason ["CrashLoopBackOff"; "Error"]
      then [container_crash ns name cname reason detail]
      else if reason_in reason ["ImagePullBackOff"; "ErrImagePull"; "RegistryUnavailable"]
      then [image_pull_problem ns name cname reason detail]
      else if eq_str reason "CreateContainerConfigError"
      then [container_config_error ns name cname detail]
      else []
  end.

(** The [if cs.last_state.terminated:] block. *)
Definition terminated_issues (ns : option string) (name cname : string)
    (t : option ContainerStateTerminated) : list Issue :=
  match t with
  | None => []
  | Some term =>
      if (eq_str (terminated_reason term) "OOMKilled"
          || (or_0 (terminated_signal term) =? 9))%bool
      then [oom_killed ns name cname term] else []
  end.

(** [if cs.restart_count and cs.restart_count > 5:]. *)
Definition restart_issues (ns : option string) (name cname : string)
    (restart_count : Z) : list Issue :=
  if (negb (restart_count =? 0) && (5 <? restart_count))%bool
  then [high_restart_count ns name cname restart_count] else [].

(** The body of the [for cs in container_statuses] loop. *)
Definition container_issues (ns : option string) (name : string) (cs : ContainerStatus)
  : list Issue :=
  let cname := cs_name cs in
  waiting_issues ns name cname (waiting (cs_state cs))
  ++ terminated_issues ns name cname (terminated (cs_last_state cs))
  ++ restart_issues ns name cname (cs_restart_count cs).

(** The body of the [for p in pods] loop. *)
Definition pod_issues (p : Pod) : list Issue :=
  let ns := pod_namespace p in
  let name := pod_name p in
  (if eq_str (pod_status_phase p) "Pending"
   then [pod_pending ns name (pod_status_message p)] else [])
  ++ flat_map (container_issues ns name) (or_list (pod_status_container_statuses p)).

(** ** Persistent volume claims *)

Record PersistentVolumeClaim := {
  pvc_namespace : option string;
  pvc_name : string;
  pvc_status_phase : option string
}.

Definition pvc_not_bound (pvc : PersistentVolumeClaim) : Issue :=
  {| severity := "warning";
     title := "PVC not Bound: " +:+ fmt (pvc_namespace pvc) +:+ "/" +:+ pvc_name pvc;
     detail := "phase=" +:+ fmt (pvc_status_phase pvc);
     suggestion := "Check StorageClass, PV availability, and events: kubectl describe pvc -n {ns} {name}" |}.

Definition pvc_issues (pvc : PersistentVolumeClaim) : list Issue :=
  if negb (eq_str (pvc_status_phase pvc) "Bound") then [pvc_not_bound pvc] else [].

(** ** Events *)

Record CoreEvent := {
  ev_last_timestamp : option datetime;
  ev_event_time : option datetime;
  ev_first_timestamp : option datetime;
  ev_type : option string;
  ev_involved_object_kind : option string;
  ev_involved_object_name : option string;
  ev_reason : option string;
  ev_message : option string
}.

Definition event_issue (e : CoreEvent) : Issue :=
  {| severity := "warning";
     title := "Event: " +:+ fmt (ev_involved_object_kind e) +:+ " "
              +:+ fmt (ev_involved_object_name e) +:+ " - " +:+ fmt (ev_reason e);
     detail := fmt (ev_message e);
     suggestion := "Investigate the resource and reason; kubectl describe on the involved object." |}.

(** [a or b] on optional datetimes: a [datetime] is always truthy. *)
Definition or_time (a b : option datetime) : option datetime :=
  match a with Some _ => a | None => b end.

(** [e.last_timestamp or e.event_time or e.first_timestamp]. *)
Definition event_time_of (e : CoreEvent) : option datetime :=
  or_time (or_time (ev_last_timestamp e) (ev_event_time e)) (ev_first_timestamp e).

(** [t.timestamp()] inside its [try]: on a [datetime] it returns. *)
Definition try_timestamp (t : datetime) : option Q := Some (timestamp t).

(** [cutoff = now - since_minutes*60]. *)
Definition cutoff_of (now : Q) (since_minutes : Z) : Q :=
  (now - inject_Z (since_minutes * 60))%Q.

(** [ts < cutoff]. *)
Definition Qltb (a b : Q) : bool := negb (Qle_bool b a).

(** The body of the [for e in events] loop, [continue]s included. *)
Definition event_issues (cutoff : Q) (e : CoreEvent) : list Issue :=
  match event_time_of e with
  | None => []
  | Some t =>
      match try_timestamp t with
      | None => []
      | Some ts =>
          if Qltb ts cutoff then []
          else if eq_str (ev_type e) "Warning" then [event_issue e] else []
      end
  end.

(** ** The core API client and the classifiers that call it *)

Record CoreV1Api := {
  list_node : py (list Node);
  list_namespaced_pod : string -> py (list Pod);
  list_pod_for_all_namespaces : py (list Pod);
  list_namespaced_persistent_volume_claim : string -> py (list PersistentVolumeClaim);
  list_persistent_volume_claim_for_all_namespaces : py (list PersistentVolumeClaim);
  list_namespaced_event : string -> py (list CoreEvent);
  list_event_for_all_namespaces : py (list CoreEvent)
}.

Definition check_nodes (v1 : CoreV1Api) : py (list Issue) :=
  match list_node v1 with
  | Raise (ApiException e) => Ret [listing_failure "nodes" e]
  | Raise e => Raise e
  | Ret nodes => Ret (flat_map node_issues nodes)
  end.

Definition list_pods (v1 : CoreV1Api) (namespace : option string) : py (list Pod) :=
  if truthy_str namespace
  then list_namespaced_pod v1 (default EmptyString namespace)
  else list_pod_for_all_namespaces v1.

(** No [try] around the listing call here: whatever it raises leaves
    the function. *)
Definition analyze_pods (v1 : CoreV1Api) (namespace : option string) : py (list Issue) :=
  py_bind (list_pods v1 namespace) (fun pods =>
  Ret (flat_map pod_issues pods)).

Definition list_pvcs (v1 : CoreV1Api) (namespace : option string)
  : py (list PersistentVolumeClaim) :=
  if truthy_str namespace
  then list_namespaced_persistent_volume_claim v1 (default EmptyString namespace)
  else list_persistent_volume_claim_for_all_namespaces v1.

Definition check_pvcs (v1 : CoreV1Api) (namespace : option string) : py (list Issue) :=
  match list_pvcs v1 namespace with
  | Raise (ApiException e) => Ret [listing_failure "PVCs" e]
  | Raise e => Raise e
  | Ret pvcs => Ret (flat_map pvc_issues pvcs)
  end.

Definition list_events (v1 : CoreV1Api) (namespace : option string)
  : py (list CoreEvent) :=
  if truthy_str namespace
  then list_namespaced_event v1 (default EmptyString namespace)
  else list_event_for_all_namespaces v1.

(** [now] is the reading of [datetime.now(timezone.utc).timestamp()]. *)
Definition collect_events (v1 : CoreV1Api) (now : Q) (since_minutes : Z)
    (namespace : option string) : py (list Issue) :=
  match list_events v1 namespace with
  | Raise (ApiException e) => Ret [listing_failure "events" e]
  | Raise e => Raise e
  | Ret events =>
      let cutoff := cutoff_of now since_minutes in
      Ret (flat_map (event_issues cutoff) events)
  end.

(** ** The report: ordering and rendering *)

Definition sev_order : gmap string Z :=
  {[ "error" := 0; "warning" := 1; "info" := 2 ]}.

(** [sev_order.get(severity, 1)]. *)
Definition sev_rank (sev : string) : Z := default 1 (sev_order !! sev).

(** The sort key [(rank, title)] of the [lambda]. *)
Definition sort_key (x : Issue) : Z * string := (sev_rank (severity x), title x).

(** [a <= b] on the key tuples: lexicographic, first component first. *)
Definition key_leb (a b : Z * string) : bool :=
  (a.1 <? b.1) || ((a.1 =? b.1) && String.leb a.2 b.2).

Definition key_le (a b : Z * string) : Prop := key_leb a b = true.

Section sorted.
Context {A K : Type} (key : A -> K) (leb : K -> K -> bool).

(** Put [x] in front of the first element whose key is not below its
    own: [x] stays before the elements that compare equal to it. *)
Fixpoint insert_by (x : A) (l : list A) : list A :=
  match l with
  | [] => [x]
  | y :: l' => if leb (key x) (key y) then x :: l else y :: insert_by x l'
  end.

(** [sorted(l, key=key)].  The built-in sort is stable, and a stable
    sort has one possible result ([stable_sort_unique] below), so
    sorting by insertion from the right denotes the same list. *)
Definition sorted (l : list A) : list A := foldr insert_by [] l.

(** The order the sort puts on the elements. *)
Definition by_key (x y : A) : Prop := leb (key x) (key y) = true.
End sorted.

Definition issues_sorted (issues : list Issue) : list Issue :=
  sorted sort_key key_leb issues.

(** The three [print] calls for entry number [i]. *)
Definition render_issue (i : nat) (it : Issue) : list string :=
  [ nl +:+ "[" +:+ str_of_nat i +:+ "] " +:+ upper (severity it) +:+ " - " +:+ title it;
    "    Detail: " +:+ " " +:+ detail it;
    "    Suggestion:" +:+ " " +:+ suggestion it ].

(** The lines [pretty_print_issues] prints. *)
Definition pretty_print_issues (issues : list Issue) : list string :=
  match issues with
  | [] => [nl +:+ "No issues detected. Cluster looks healthy (based on checks performed)."]
  | _ => (nl +:+ "Detected issues & suggested fixes:")
         :: concat (imap (fun i it => render_issue (S i) it) (issues_sorted issues))
  end.

(** ** Manifests: the local structural check *)

(** What [yaml.safe_load_all] yields for one document: the scalars,
    sequences and mappings of the core schema. *)
Local Unset Elimination Schemes.
Inductive yaml :=
| YNull
| YBool (b : bool)
| YInt (z : Z)
| YFloat (repr : string)
| YStr (s : string)
| YSeq (items : list yaml)
| YMap (entries : list (yaml * yaml)).
Local Set Elimination Schemes.

(** [y == k] for a string [k]. *)
Definition is_str (k : string) (y : yaml) : bool :=
  match y with YStr s => String.eqb s k | _ => false end.

(** [k in d] for a mapping, its entries in file order. *)
Definition dict_has (k : string) (entries : list (yaml * yaml)) : bool :=
  existsb (fun kv => is_str k kv.1) entries.

(** [d.get(k, dflt)]: the loader keeps the last of duplicate keys. *)
Definition dict_get (k : string) (entries : list (yaml * yaml)) (dflt : yaml) : yaml :=
  foldl (fun acc kv => if is_str k kv.1 then kv.2 else acc) dflt entries.

(** [k in v] for whatever the loader produced: key membership in a
    mapping, element membership in a sequence, substring of a string, and
    a [TypeError] for the scalars that are not containers. *)
Definition py_in (k : string) (v : yaml) : py bool :=
  match v with
  | YMap entries => Ret (dict_has k entries)
  | YSeq items => Ret (existsb (is_str k) items)
  | YStr s => Ret (contains k s)
  | YNull => Raise (TypeError "argument of type 'NoneType' is not iterable")
  | YBool _ => Raise (TypeError "argument of type 'bool' is not iterable")
  | YInt _ => Raise (TypeError "argument of type 'int' is not iterable")
  | YFloat _ => Raise (TypeError "argument of type 'float' is not iterable")
  end.

Definition not_a_mapping (i : nat) : string :=
  "Document " +:+ str_of_nat i +:+ " is not a mapping".
Definition missing_kind (i : nat) : string :=
  "Document " +:+ str_of_nat i +:+ " missing 'kind'".
Definition missing_metadata_name (i : nat) : string :=
  "Document " +:+ str_of_nat i +:+ " missing metadata.name".

(** ["metadata" not in d or "name" not in d.get("metadata", {})]. *)
Definition lacks_metadata_name (entries : list (yaml * yaml)) : py bool :=
  if negb (dict_has "metadata" entries) then Ret true
  else py_bind (py_in "name" (dict_get "metadata" entries (YMap []))) (fun b =>
       Ret (negb b)).

(** The body of the [for i, d in enumerate(docs)] loop. *)
Definition document_problems (i : nat) (d : yaml) : py (list string) :=
  match d with
  | YMap entries =>
      let kind_problem := if dict_has "kind" entries then [] else [missing_kind i] in
      py_bind (lacks_metadata_name entries) (fun lacks =>
      Ret (kind_problem ++ if lacks then [missing_metadata_name i] else []))
  | _ => Ret [not_a_mapping i]
  end.

(** The loop itself, from index [i]. *)
Fixpoint documents_problems (i : nat) (docs : list yaml) : py (list string) :=
  match docs with
  | [] => Ret []
  | d :: rest =>
      py_bind (document_problems i d) (fun ps =>
      py_bind (documents_problems (S i) rest) (fun qs =>
      Ret (ps ++ qs)))
  end.

(** [loaded] is what [open] and [list(yaml.safe_load_all(fh))] gave:
    the documents, or [str(e)] of the exception the [try] caught. *)
Definition simple_local_manifest_check (loaded : string + list yaml) : py (bool * string) :=
  match loaded with
  | inl e => Ret (false, "YAML parse error: " +:+ e)
  | inr docs =>
      py_bind (documents_problems 0 docs) (fun problems =>
      let ok := Nat.eqb (length problems) 0 in
      Ret (ok, match problems with
               | [] => "Basic YAML checks passed."
               | _ => join nl problems
               end))
  end.

(** ** The driver and its external world *)

(** What [subprocess.run(..., capture_output=True)] returns. *)
Record CompletedProcess := {
  returncode : Z;
  stdout : string;
  stderr : string
}.

(** The effects a run performs, in order, each with the answer it got. *)
Inductive Effect :=
| Print (line : string)
| Which (found : bool)
| SubprocessRun (cmd : list string) (res : CompletedProcess + string)
| SafeLoadAll (path : string) (res : string + list yaml).

(** Everything outside the script.  The loaders of the cluster
    configuration raise ([Some e]) or return; the two API clients answer
    the listing calls; [which_kubectl], [subprocess_run] and
    [safe_load_all] answer by the number of effects performed before the
    call, so that the tools and the manifest file may change between two
    calls of one run.  [inr e] is a [subprocess.run] that raised;
    [inl e] a manifest that could not be opened or parsed. *)
Record World := {
  load_kube_config : option string;
  load_incluster_config : option string;
  core_v1 : CoreV1Api;
  apps_v1 : AppsV1Api;
  utc_now : Q;
  which_kubectl : nat -> bool;
  subprocess_run : nat -> list string -> CompletedProcess + string;
  safe_load_all : nat -> string -> string + list yaml
}.

(** How a piece of the driver ends: it returns, an exception escapes it,
    or it calls [sys.exit]. *)
Inductive outcome (A : Type) :=
| Done (a : A)
| Uncaught (e : exn)
| Exit (code : Z).
Arguments Done {A} a.
Arguments Uncaught {A} e.
Arguments Exit {A} code.

Definition io (A : Type) : Type := World -> list Effect -> outcome A * list Effect.

Global Instance io_ret : MRet io := fun _ a _ tr => (Done a, tr).

Global Instance io_bind : MBind io := fun _ _ k m w tr =>
  match m w tr with
  | (Done a, tr') => k a w tr'
  | (Uncaught e, tr') => (Uncaught e, tr')
  | (Exit c, tr') => (Exit c, tr')
  end.

Definition print (line : string) : io unit :=
  fun _ tr => (Done tt, tr ++ [Print line]).

Definition sys_exit {A} (code : Z) : io A := fun _ tr => (Exit code, tr).

Definition world : io World := fun w tr => (Done w, tr).

(** A call that may raise, made where nothing catches. *)
Definition call {A} (m : py A) : io A :=
  fun _ tr => (match m with Ret a => Done a | Raise e => Uncaught e end, tr).

(** [shutil.which("kubectl") is not None]. *)
Definition kubectl_available : io bool :=
  fun w tr => let found := which_kubectl w (length tr) in
              (Done found, tr ++ [Which found]).

Definition run (cmd : list string) : io (CompletedProcess + string) :=
  fun w tr => let res := subprocess_run w (length tr) cmd in
              (Done res, tr ++ [SubprocessRun cmd res]).

Definition load_documents (path : string) : io (string + list yaml) :=
  fun w tr => let res := safe_load_all w (length tr) path in
              (Done res, tr ++ [SafeLoadAll path res]).

Definition load_k8s_config : io unit :=
  w ← world;
  match load_kube_config w with
  | None => print "[k8s] Loaded kubeconfig."
  | Some _ =>
      match load_incluster_config w with
      | None => print "[k8s] Loaded in-cluster config."
      | Some e =>
          print ("[k8s] ERROR loading Kubernetes config:" +:+ " " +:+ e) ;;
          sys_exit 1
      end
  end.

(** [cmd += ["-n", namespace]] under [if namespace:]. *)
Definition namespace_args (namespace : option string) : list string :=
  if truthy_str namespace then ["-n"; default EmptyString namespace] else [].

Definition dry_run_cmd (manifest_path : string) (namespace : option string) : list string :=
  ["kubectl"; "apply"; "--dry-run=server"; "-f"; manifest_path] ++ namespace_args namespace.

Definition apply_cmd (manifest : string) (namespace : option string) : list string :=
  ["kubectl"; "apply"; "-f"; manifest] ++ namespace_args namespace.

(** The verdict and output [kubectl_dry_run] makes of the subprocess. *)
Definition dry_run_verdict (res : CompletedProcess + string) : bool * string :=
  match res with
  | inr e => (false, "Failed to run kubectl: " +:+ e)
  | inl proc => (returncode proc =? 0, stdout proc +:+ stderr proc)
  end.

Definition kubectl_dry_run (manifest_path : string) (namespace : option string)
  : io (bool * string) :=
  res ← run (dry_run_cmd manifest_path namespace);
  mret (dry_run_verdict res).

Definition validate_manifest (manifest : string) (namespace : option string)
  : io (bool * string) :=
  print ("[manifest] Validating manifest: " +:+ manifest) ;;
  available ← kubectl_available;
  if available : bool then
    '(ok, out) ← kubectl_dry_run manifest namespace;
    print (if ok : bool
           then "[manifest] kubectl server-side dry-run succeeded. Manifest should be accepted by API server."
           else "[manifest] kubectl dry-run reported issues:") ;;
    print out ;;
    mret (ok, out)
  else
    loaded ← load_documents manifest;
    '(ok, out) ← call (simple_local_manifest_check loaded);
    print "[manifest] Kubectl not found; performed basic YAML checks:" ;;
    print out ;;
    mret (ok, out).

Definition apply_manifest (manifest : string) (namespace : option string)
  : io (bool * string) :=
  available ← kubectl_available;
  if negb available then
    print "[apply] kubectl is required to apply manifests from this script." ;;
    mret (false, "kubectl not found")
  else
    let cmd := apply_cmd manifest namespace in
    print ("[apply] Running: " +:+ join " " cmd) ;;
    res ← run cmd;
    match res with
    | inr e => call (Raise (OtherError e))
    | inl proc => mret (returncode proc =? 0, stdout proc +:+ stderr proc)
    end.

Definition scan_cluster (namespace : option string) : io (list Issue) :=
  load_k8s_config ;;
  w ← world;
  let v1 := core_v1 w in
  let apps := apps_v1 w in
  print "[scan] Checking nodes..." ;;
  nodes ← call (check_nodes v1);
  print "[scan] Checking pods..." ;;
  pods ← call (analyze_pods v1 namespace);
  print "[scan] Checking deployments..." ;;
  deps ← call (check_deployments apps namespace);
  print "[scan] Checking PVCs..." ;;
  pvcs ← call (check_pvcs v1 namespace);
  print "[scan] Collecting warning events (last 60m)..." ;;
  events ← call (collect_events v1 (utc_now w) 60 namespace);
  mret (nodes ++ pods ++ deps ++ pvcs ++ events).

(** One [print] per line of the report. *)
Fixpoint print_all (lines : list string) : io unit :=
  match lines with
  | [] => mret tt
  | l :: rest => print l ;; print_all rest
  end.

(** The parsed command line. *)
Record Args := {
  arg_namespace : option string;
  arg_manifest : option string;
  arg_apply : bool;
  arg_no_scan : bool
}.

Definition dry_run_failed_line : string :=
  "[main] Dry-run failed; NOT applying. Fix manifest first.".
Definition apply_failed_line : string :=
  "[main] Apply failed; inspect the error output above.".
Definition apply_succeeded_line : string :=
  "[main] Apply succeeded (kubectl reported success).".

(** The [if args.apply:] block. *)
Definition apply_gate (manifest : string) (namespace : option string) : io unit :=
  print (nl +:+ "[main] User requested apply; performing server-side dry-run before apply once more...") ;;
  '(ok2, out2) ← validate_manifest manifest namespace;
  if negb ok2 then
    print dry_run_failed_line
  else
    print "[main] Dry-run succeeded. Proceeding to apply (kubectl apply)..." ;;
    '(ok_apply, apply_out) ← apply_manifest manifest namespace;
    print apply_out ;;
    if negb ok_apply then print apply_failed_line
    else print apply_succeeded_line.

Definition main (args : Args) : io unit :=
  let namespace := arg_namespace args in
  (if negb (arg_no_scan args) then
     print "[main] Scanning cluster..." ;;
     issues ← scan_cluster namespace;
     print_all (pretty_print_issues issues)
   else mret tt) ;;
  if truthy_str (arg_manifest args) then
    let manifest := default EmptyString (arg_manifest args) in
    '(ok, out) ← validate_manifest manifest namespace;
    (if negb ok then
       print (nl +:+ "[main] Manifest validation failed. Suggested actions:") ;;
       print "  - Fix errors reported by kubectl or YAML checks." ;;
       print "  - If ImagePull errors, check image and registry credentials." ;;
       print "  - If RBAC/CRD errors, ensure cluster has required CRDs and your user has permissions."
     else
       print (nl +:+ "[main] Manifest validated OK by server-side dry-run (or basic checks).")) ;;
    if arg_apply args then apply_gate manifest namespace else mret tt
  else
    print (nl +:+ "[main] No manifest provided. Scan-only run complete.").

(** A whole run, from an empty trace. *)
Definition run_main (w : World) (args : Args) : outcome unit * list Effect :=
  main args w [].

(** ** Vocabulary of the statements *)

(** The counts the deployment rule compares, an absent one read as 0. *)
Definition desired (d : Deployment) : Z := default 0 (dep_spec_replicas d).
Definition available (d : Deployment) : Z := default 0 (dep_status_available_replicas d).

Definition is_replica_mismatch (it : Issue) : bool :=
  String.prefix "Replica mismatch" (title it).

(** A warning whose title contains "NotReady". *)
Definition is_not_ready_warning (it : Issue) : bool :=
  String.eqb (severity it) "warning" && contains "NotReady" (title it).

(** The node's [Ready] condition: the last one of that type. *)
Definition ready_condition (n : Node) : option NodeCondition :=
  last (filter (fun c => nc_type c = "Ready") (or_list (node_status_conditions n))).

(** The first present of last-seen, event and first-seen time. *)
Definition first_present (e : CoreEvent) : option datetime :=
  match ev_last_timestamp e, ev_event_time e, ev_first_timestamp e with
  | Some t, _, _ => Some t
  | None, Some t, _ => Some t
  | None, None, o => o
  end.

(** An event that has a timestamp not older than the window, and whose
    type is exactly "Warning". *)
Definition recent_warning (now : Q) (since_minutes : Z) (e : CoreEvent) : Prop :=
  exists t, first_present e = Some t
    /\ ~ (timestamp t < now - inject_Z since_minutes * 60)%Q
    /\ ev_type e = Some "Warning".

(** A mapping document has [metadata.name] when its [metadata] is a
    mapping with a [name] key. *)
Definition has_metadata_name (entries : list (yaml * yaml)) : bool :=
  dict_has "metadata" entries &&
  match dict_get "metadata" entries YNull with
  | YMap m => dict_has "name" m
  | _ => false
  end.

(** The problems the check is meant to record for document [i]. *)
Definition expected_problems (i : nat) (d : yaml) : list string :=
  match d with
  | YMap entries =>
      (if dict_has "kind" entries then [] else [missing_kind i])
      ++ (if has_metadata_name entries then [] else [missing_metadata_name i])
  | _ => [not_a_mapping i]
  end.

(** Documents the check handles: every [metadata] present is a mapping. *)
Definition metadata_is_mapping (d : yaml) : bool :=
  match d with
  | YMap entries =>
      negb (dict_has "metadata" entries) ||
      match dict_get "metadata" entries YNull with YMap _ => true | _ => false end
  | _ => true
  end.

(** Reading a trace.  An effect mutates the cluster when it runs a
    command other than a server-side dry-run. *)
Definition is_dry_run (cmd : list string) : bool :=
  bool_decide (cmd !! 2%nat = Some "--dry-run=server").

Definition is_apply (ef : Effect) : bool :=
  match ef with
  | SubprocessRun cmd _ => negb (is_dry_run cmd)
  | _ => false
  end.

(** The verdict a validation reaches on the answer it got. *)
Definition verdict_of (ef : Effect) : option bool :=
  match ef with
  | SubprocessRun cmd res => if is_dry_run cmd then Some (dry_run_verdict res).1 else None
  | SafeLoadAll _ loaded =>
      match simple_local_manifest_check loaded with
      | Ret (ok, _) => Some ok
      | Raise _ => None
      end
  | _ => None
  end.

Definition verdicts (tr : list Effect) : list bool := omap verdict_of tr.

(** Effects that neither validate nor mutate: output and tool probes. *)
Definition is_quiet (ef : Effect) : bool :=
  match ef with Print _ | Which _ => true | _ => false end.

Global Instance recent_warning_dec now since_minutes e :
  Decision (recent_warning now since_minutes e).
Proof.
  unfold recent_warning.
  destruct (first_present e) as [t|].
  - destruct (Qlt_le_dec (timestamp t) (now - inject_Z since_minutes * 60)) as [Hold|Hnew].
    + right. intros (t' & [= <-] & Hnot & _). by apply Hnot.
    + destruct (decide (ev_type e = Some "Warning")) as [Hty|Hty].
      * left. exists t. split; [done |]. split; [by apply Qle_not_lt | done].
      * right. intros (_ & _ & _ & ?). done.
  - right. intros (t & [=] & _).
Defined.

(** A piece of the driver that only prints and probes, whatever the
    world and the trace so far. *)
Definition quiet_io {A} (m : io A) : Prop :=
  forall w tr, exists ps,
    (m w tr).2 = tr ++ ps /\ Forall (fun ef => is_quiet ef = true) ps.

(** The apply gate, read off a finished run: whatever mutates comes
    right after the effect that carried the run's second verdict, a
    positive one, with only output and probes in between, and only if
    the caller asked to apply; and a run whose second verdict is negative
    mutates nothing, returns, and ends by reporting that it did not
    apply. *)
Definition gated (args : Args) (out : outcome unit) (tr : list Effect) : Prop :=
  (forall pre ef post, tr = pre ++ ef :: post -> is_apply ef = true ->
     arg_apply args = true
     /\ exists before ev quiet v1,
          pre = before ++ ev :: quiet
          /\ verdicts before = [v1]
          /\ verdict_of ev = Some true
          /\ Forall (fun ef => is_quiet ef = true) quiet)
  /\ (forall v1, verdicts tr = [v1; false] ->
        Forall (fun ef => is_apply ef = false) tr
        /\ out = Done tt
        /\ last tr = Some (Print dry_run_failed_line)).

(** ** Sample inputs *)

Definition sample_deployment (replicas avail : option Z) : Deployment :=
  {| dep_namespace := Some "default"; dep_name := "web";
     dep_spec_replicas := replicas;
     dep_status_available_replicas := avail;
     dep_status_conditions := None |}.

Definition sample_apps : AppsV1Api :=
  {| list_namespaced_deployment := fun _ => Ret [];
     list_deployment_for_all_namespaces :=
       Ret [sample_deployment (Some 3) (Some 3); sample_deployment (Some 3) (Some 1)] |}.

(** A deployment with its absent counts written as 0. *)
Definition with_counts (d : Deployment) : Deployment :=
  {| dep_namespace := dep_namespace d; dep_name := dep_name d;
     dep_spec_replicas := Some (desired d);
     dep_status_available_replicas := Some (available d);
     dep_status_conditions := dep_status_conditions d |}.

Definition sample_condition (type : string) (status : string) : NodeCondition :=
  {| nc_type := type; nc_status := Some status;
     nc_last_heartbeat_time := Some {| timestamp := 1700000000; str_datetime := "2023-11-14 22:13:20+00:00" |};
     nc_last_transition_time := None |}.

Definition sample_node (name : string) (conds : option (list NodeCondition)) : Node :=
  {| node_name := name; node_status_conditions := conds; node_spec_unschedulable := Some true |}.

(** Three nodes: one not ready and under disk pressure, one ready, one
    that reports no condition at all. *)
Definition sample_nodes : list Node :=
  [ sample_node "node-a" (Some [sample_condition "Ready" "False";
                                sample_condition "DiskPressure" "True"]);
    sample_node "node-b" (Some [sample_condition "Ready" "True";
                                sample_condition "MemoryPressure" "True"]);
    sample_node "node-c" None ].

(** A client that answers the same in every namespace scope. *)
Definition client_of (nodes : py (list Node)) (pods : py (list Pod))
    (pvcs : py (list PersistentVolumeClaim)) (events : py (list CoreEvent)) : CoreV1Api :=
  {| list_node := nodes;
     list_namespaced_pod := fun _ => pods;
     list_pod_for_all_namespaces := pods;
     list_namespaced_persistent_volume_claim := fun _ => pvcs;
     list_persistent_volume_claim_for_all_namespaces := pvcs;
     list_namespaced_event := fun _ => events;
     list_event_for_all_namespaces := events |}.

(** A container waiting in CrashLoopBackOff after seven restarts. *)
Definition sample_container : ContainerStatus :=
  {| cs_name := "app";
     cs_state := {| waiting := Some {| waiting_reason := Some "CrashLoopBackOff";
                                       waiting_message := Some "back-off restarting" |};
                    terminated := None |};
     cs_last_state := {| waiting := None; terminated := None |};
     cs_restart_count := 7 |}.

Definition sample_pod : Pod :=
  {| pod_namespace := Some "default"; pod_name := "web-0";
     pod_status_phase := Some "Running"; pod_status_message := None;
     pod_status_container_statuses := Some [sample_container] |}.

(** The reading of the clock in the samples, and instants before it. *)
Definition sample_now : Q := 1700000000.

Definition minutes_ago (m : Z) : option datetime :=
  Some {| timestamp := sample_now - inject_Z m * 60; str_datetime := "-" |}.

Definition sample_event (type : string) (last event first : option datetime) : CoreEvent :=
  {| ev_last_timestamp := last; ev_event_time := event; ev_first_timestamp := first;
     ev_type := Some type;
     ev_involved_object_kind := Some "Pod"; ev_involved_object_name := Some "web-0";
     ev_reason := Some "BackOff"; ev_message := Some "Back-off restarting failed container" |}.

(** A Warning 30 minutes old, one 90 minutes old, a Normal event one
    minute old, a Warning without any timestamp, and a Warning whose
    last-seen time is old although its event time is recent. *)
Definition sample_events : list CoreEvent :=
  [ sample_event "Warning" (minutes_ago 30) None None;
    sample_event "Warning" (minutes_ago 90) None None;
    sample_event "Normal" (minutes_ago 1) None None;
    sample_event "Warning" None None None;
    sample_event "Warning" (minutes_ago 90) (minutes_ago 5) None;
    sample_event "Warning" None None (minutes_ago 10) ].

(** Every listing call refused by the API server. *)
Definition forbidden : string := "(403) Reason: Forbidden".

Definition refusing_core_v1 : CoreV1Api :=
  client_of (Raise (ApiException forbidden)) (Raise (ApiException forbidden))
            (Raise (ApiException forbidden)) (Raise (ApiException forbidden)).

Definition refusing_apps_v1 : AppsV1Api :=
  {| list_namespaced_deployment := fun _ => Raise (ApiException forbidden);
     list_deployment_for_all_namespaces := Raise (ApiException forbidden) |}.

(** Manifest documents: a pod without [kind], a pod without
    [metadata.name], a complete one, and one whose [metadata:] line has
    no value, which the loader reads as [None]. *)
Definition doc_without_kind : yaml :=
  YMap [(YStr "apiVersion", YStr "v1");
        (YStr "metadata", YMap [(YStr "name", YStr "web")])].

Definition doc_without_name : yaml :=
  YMap [(YStr "apiVersion", YStr "v1"); (YStr "kind", YStr "Pod");
        (YStr "metadata", YMap [(YStr "labels", YMap [])])].

Definition doc_complete : yaml :=
  YMap [(YStr "apiVersion", YStr "v1"); (YStr "kind", YStr "Pod");
        (YStr "metadata", YMap [(YStr "name", YStr "web")])].

Definition doc_null_metadata : yaml :=
  YMap [(YStr "apiVersion", YStr "v1"); (YStr "kind", YStr "Pod");
        (YStr "metadata", YNull)].

Definition doc_text_metadata : yaml :=
  YMap [(YStr "apiVersion", YStr "v1"); (YStr "kind", YStr "Pod");
        (YStr "metadata", YStr "unnamed")].

(** A machine without kubectl whose manifest file holds [docs]; its
    cluster is the refusing one (the runs below skip the scan). *)
Definition world_without_kubectl (docs : list yaml) : World :=
  {| load_kube_config := None; load_incluster_config := None;
     core_v1 := refusing_core_v1; apps_v1 := refusing_apps_v1;
     utc_now := sample_now;
     which_kubectl := fun _ => false;
     subprocess_run := fun _ _ => inr "[Errno 2] No such file or directory: 'kubectl'";
     safe_load_all := fun _ _ => inr docs |}.

Definition manifest_only (apply : bool) : Args :=
  {| arg_namespace := None; arg_manifest := Some "app.yaml";
     arg_apply := apply; arg_no_scan := true |}.

(** Issues as the classifiers return them, in concatenation order. *)
Definition sample_issue (sev ttl : string) : Issue :=
  {| severity := sev; title := ttl; detail := "-"; suggestion := "-" |}.

Definition sample_issues : list Issue :=
  [ sample_issue "warning" "Node pressure DiskPressure: node-a";
    sample_issue "info" "Node Cordoned (unschedulable): node-a";
    sample_issue "warning" "Node NotReady: node-a";
    sample_issue "error" "Failed to list PVCs";
    {| severity := "warning"; title := "Event: Pod web-0 - BackOff";
       detail := "first"; suggestion := "-" |};
    sample_issue "error" "Failed to list events";
    {| severity := "warning"; title := "Event: Pod web-0 - BackOff";
       detail := "second"; suggestion := "-" |} ].

(** A machine with kubectl whose API server accepts the manifest at the
    first dry-run (the third effect of a manifest-only run) and rejects it
    ever after; and one whose server accepts every request. *)
Definition world_of (answer : nat -> list string -> CompletedProcess + string) : World :=
  {| load_kube_config := None; load_incluster_config := None;
     core_v1 := refusing_core_v1; apps_v1 := refusing_apps_v1;
     utc_now := sample_now;
     which_kubectl := fun _ => true;
     subprocess_run := answer;
     safe_load_all := fun _ _ => inr [] |}.

Definition accepted : CompletedProcess :=
  {| returncode := 0; stdout := "pod/web configured (server dry run)"; stderr := EmptyString |}.

Definition rejected : CompletedProcess :=
  {| returncode := 1; stdout := EmptyString;
     stderr := "Error from server (Invalid): quota exceeded" |}.

Definition changing_world : World :=
  world_of (fun n _ => if Nat.eqb n 2 then inl accepted else inl rejected).

Definition accepting_world : World := world_of (fun _ _ => inl accepted).

(** ** Further vocabulary *)

(** The issue a pending pod gets. *)
Definition is_pod_pending (it : Issue) : bool :=
  String.prefix "Pod Pending: " (title it).

(** A listing call that returned, or failed the way the classifiers
    handle. *)
Definition handled {A} (r : py A) : Prop :=
  match r with
  | Ret _ | Raise (ApiException _) => True
  | Raise _ => False
  end.

Definition is_api_exception (e : exn) : bool :=
  match e with ApiException _ => true | _ => false end.

(** The cluster configuration can be loaded, from the kubeconfig or,
    failing that, from inside the cluster. *)
Definition config_loads (w : World) : Prop :=
  load_kube_config w = None \/ load_incluster_config w = None.

(** The line [load_k8s_config] prints when it succeeds. *)
Definition config_line (w : World) : string :=
  match load_kube_config w with
  | None => "[k8s] Loaded kubeconfig."
  | Some _ => "[k8s] Loaded in-cluster config."
  end.

(** A document that passes the local check: a mapping with [kind] and
    [metadata.name]. *)
Definition complete_document (d : yaml) : bool :=
  match d with
  | YMap entries => dict_has "kind" entries && has_metadata_name entries
  | _ => false
  end.


(** A piece of the driver that never runs a mutating command. *)
Definition harmless_io {A} (m : io A) : Prop :=
  forall w tr, exists es,
    (m w tr).2 = tr ++ es /\ Forall (fun ef => is_apply ef = false) es.

(** Two worlds that answer alike about kubectl, subprocesses and the
    manifest file. *)
Definition same_tools (w w' : World) : Prop :=
  which_kubectl w = which_kubectl w'
  /\ subprocess_run w = subprocess_run w'
  /\ safe_load_all w = safe_load_all w'.

(** More sample inputs. *)
Definition sample_pending_pod : Pod :=
  {| pod_namespace := Some "default"; pod_name := "web-1";
     pod_status_phase := Some "Pending"; pod_status_message := None;
     pod_status_container_statuses := Some [sample_container] |}.

Definition sample_pvc (phase : option string) : PersistentVolumeClaim :=
  {| pvc_namespace := Some "default"; pvc_name := "data"; pvc_status_phase := phase |}.

(** A cluster whose claims cannot be listed: everything else answers. *)
Definition pvc_refusing_core_v1 : CoreV1Api :=
  {| list_node := Ret sample_nodes;
     list_namespaced_pod := fun _ => Ret [sample_pod];
     list_pod_for_all_namespaces := Ret [sample_pod];
     list_namespaced_persistent_volume_claim := fun _ => Raise (ApiException forbidden);
     list_persistent_volume_claim_for_all_namespaces := Raise (ApiException forbidden);
     list_namespaced_event := fun _ => Ret sample_events;
     list_event_for_all_namespaces := Ret sample_events |}.

Definition sample_cluster_world (core : CoreV1Api) : World :=
  {| load_kube_config := Some "no kubeconfig"; load_incluster_config := None;
     core_v1 := core; apps_v1 := sample_apps;
     utc_now := sample_now;
     which_kubectl := fun _ => true;
     subprocess_run := fun _ _ => inl accepted;
     safe_load_all := fun _ _ => inr [] |}.

Definition scan_only : Args :=
  {| arg_namespace := None; arg_manifest := None; arg_apply := false; arg_no_scan := false |}.

(** A cluster reached through a connection that drops. *)
Definition unreachable : exn := OtherError "MaxRetryError: connection refused".

Definition unreachable_core_v1 : CoreV1Api :=
  client_of (Raise unreachable) (Raise unreachable) (Raise unreachable) (Raise unreachable).

Definition unreachable_apps_v1 : AppsV1Api :=
  {| list_namespaced_deployment := fun _ => Raise unreachable;
     list_deployment_for_all_namespaces := Raise unreachable |}.

(** A run that scans, validates and applies; a machine on which no
    cluster configuration can be loaded. *)
Definition scan_and_apply : Args :=
  {| arg_namespace := None; arg_manifest := Some "app.yaml";
     arg_apply := true; arg_no_scan := false |}.

Definition unconfigured_world : World :=
  {| load_kube_config := Some "no kubeconfig";
     load_incluster_config := Some "not in a cluster";
     core_v1 := unreachable_core_v1; apps_v1 := unreachable_apps_v1;
     utc_now := 0;
     which_kubectl := fun _ => true;
     subprocess_run := fun _ _ => inl accepted;
     safe_load_all := fun _ _ => inr [] |}.

(** A piece of the driver all of whose effects satisfy [P]. *)
Definition confined {A} (P : Effect -> Prop) (m : io A) : Prop :=
  forall w tr, exists es, (m w tr).2 = tr ++ es /\ Forall P es.

Definition is_print (ef : Effect) : Prop := exists line, ef = Print line.

(** The node's condition of type [t]: the last one of that type. *)
Definition node_condition (n : Node) (t : string) : option NodeCondition :=
  last (filter (fun c => nc_type c = t) (or_list (node_status_conditions n))).

Definition pressure_types : list string :=
  ["DiskPressure"; "MemoryPressure"; "PIDPressure"].

(** A deployment condition that reports a stalled rollout. *)
Definition stalled (c : DeploymentCondition) : Prop :=
  dc_type c = "Progressing" /\ dc_status c = "False".

Global Instance stalled_dec c : Decision (stalled c).
Proof. unfold stalled. apply _. Defined.

(** * Properties *)

(** ** Strings *)

Lemma prefix_app (a b : string) : String.prefix a (a +:+ b) = true.
Proof.
  induction a as [|c a IH]; simpl.
  - by destruct b.
  - destruct (Ascii.ascii_dec c c); [exact IH | done].
Qed.

Lemma prefix_refl (a : string) : String.prefix a a = true.
Proof.
  induction a as [|c a IH]; simpl; [done |].
  destruct (Ascii.ascii_dec c c); [exact IH | done].
Qed.

Lemma append_assoc (a b c : string) : (a +:+ b) +:+ c = a +:+ b +:+ c.
Proof.
  induction a as [|x a IH]; [done |].
  change (String x ((a +:+ b) +:+ c) = String x (a +:+ b +:+ c)). by f_equal.
Qed.

Lemma contains_prefix (sub s : string) :
  String.prefix sub s = true -> contains sub s = true.
Proof. destruct s; simpl; intros ->; done. Qed.

Lemma contains_here (sub s : string) : contains sub (sub +:+ s) = true.
Proof. apply contains_prefix, prefix_app. Qed.

Lemma contains_skip (pre sub s : string) :
  contains sub s = true -> contains sub (pre +:+ s) = true.
Proof.
  intros H. induction pre as [|c pre IH]; simpl; [done |].
  rewrite IH. apply orb_true_r.
Qed.

Lemma contains_app (pre sub post : string) :
  contains sub (pre +:+ sub +:+ post) = true.
Proof. apply contains_skip, contains_here. Qed.

Lemma or_0_default (o : option Z) : or_0 o = default 0 o.
Proof.
  destruct o as [z|]; simpl; [|done].
  destruct (Z.eqb_spec z 0); congruence.
Qed.

(** ** Deployments *)

Lemma not_progressing_not_mismatch d conds :
  List.filter is_replica_mismatch
    (flat_map (fun c =>
       if (String.eqb (dc_type c) "Progressing" && String.eqb (dc_status c) "False")%bool
       then [not_progressing d c] else []) conds) = [].
Proof.
  induction conds as [|c conds IH]; simpl; [done |].
  rewrite List.filter_app, IH, app_nil_r.
  by destruct (_ && _).
Qed.

Lemma deployment_issues_mismatch (d : Deployment) :
  List.filter is_replica_mismatch (deployment_issues d)
  = if decide (desired d = available d) then []
    else [replica_mismatch d (desired d) (available d)].
Proof.
  unfold deployment_issues, desired, available.
  rewrite !or_0_default, List.filter_app, not_progressing_not_mismatch, app_nil_r.
  destruct (Z.eqb_spec (default 0 (dep_spec_replicas d))
                       (default 0 (dep_status_available_replicas d))) as [E|E];
    simpl; case_decide; done.
Qed.

Lemma replica_mismatch_detail d a b :
  let it := replica_mismatch d a b in
  severity it = "warning"
  /\ detail it = "desired=" +:+ str_of_Z a +:+ ", available=" +:+ str_of_Z b
  /\ contains ("desired=" +:+ str_of_Z a) (detail it) = true
  /\ contains ("available=" +:+ str_of_Z b) (detail it) = true.
Proof.
  repeat split.
  - cbn [detail replica_mismatch]. rewrite <- append_assoc. apply contains_here.
  - apply (contains_skip "desired="), contains_skip.
    apply (contains_skip ", " _ ("available=" +:+ str_of_Z b)).
    apply contains_prefix, prefix_refl.
Qed.

Lemma filter_flat_map {A B} (f : B -> bool) (g : A -> list B) (l : list A) :
  List.filter f (flat_map g l) = flat_map (fun x => List.filter f (g x)) l.
Proof.
  induction l as [|x l IH]; simpl; [done |].
  by rewrite List.filter_app, IH.
Qed.

(** Claim C6.  When the listing succeeds, the "Replica mismatch" issues of
    [check_deployments] are exactly one per deployment whose desired count
    differs from its available count, in listing order, and none for a
    deployment whose counts agree; each is a warning whose detail contains
    "desired=<n>" and "available=<m>" for the two counts. *)
Theorem check_deployments_replica_mismatch
    (apps_v1 : AppsV1Api) (namespace : option string) (deps : list Deployment) :
  list_deployments apps_v1 namespace = Ret deps ->
  exists issues,
    check_deployments apps_v1 namespace = Ret issues
    /\ List.filter is_replica_mismatch issues
       = flat_map (fun d => if decide (desired d = available d) then []
                            else [replica_mismatch d (desired d) (available d)]) deps
    /\ forall d, let it := replica_mismatch d (desired d) (available d) in
         severity it = "warning"
         /\ contains ("desired=" +:+ str_of_Z (desired d)) (detail it) = true
         /\ contains ("available=" +:+ str_of_Z (available d)) (detail it) = true.
Proof.
  intros Hlist. exists (flat_map deployment_issues deps). split; [|split].
  - unfold check_deployments. by rewrite Hlist.
  - rewrite filter_flat_map. apply flat_map_ext. intros d. apply deployment_issues_mismatch.
  - intros d. destruct (replica_mismatch_detail d (desired d) (available d)) as (? & ? & ? & ?).
    auto.
Qed.

(** Desired 3 and available 3 give no mismatch issue; desired 3 and
    available 1 give exactly one, with detail "desired=3, available=1". *)
Lemma check_deployments_replica_mismatch_witness :
  exists issues,
    check_deployments sample_apps None = Ret issues
    /\ List.filter is_replica_mismatch issues
       = [replica_mismatch (sample_deployment (Some 3) (Some 1)) 3 1]
    /\ detail (replica_mismatch (sample_deployment (Some 3) (Some 1)) 3 1)
       = "desired=3, available=1"
    /\ contains "desired=3" "desired=3, available=1" = true
    /\ contains "available=1" "desired=3, available=1" = true.
Proof.
  destruct (check_deployments_replica_mismatch sample_apps None
              [sample_deployment (Some 3) (Some 3); sample_deployment (Some 3) (Some 1)]
              eq_refl) as (issues & Hrun & Hfilter & _).
  exists issues. repeat split; [exact Hrun | exact Hfilter].
Defined.

Lemma deployment_issues_with_counts (d : Deployment) :
  deployment_issues (with_counts d) = deployment_issues d.
Proof.
  unfold deployment_issues. rewrite !or_0_default. reflexivity.
Qed.

(** Claim C10.  An absent desired or available count is read as 0 before
    the comparison: a deployment yields the issues of the same deployment
    with its counts written out; with both counts absent it yields no
    "Replica mismatch" issue, and with the desired count absent and one
    replica available it yields exactly one, whose detail reads
    "desired=0, available=1". *)
Theorem absent_replica_counts_read_as_zero (d : Deployment) :
  deployment_issues d = deployment_issues (with_counts d)
  /\ (dep_spec_replicas d = None -> dep_status_available_replicas d = None ->
      List.filter is_replica_mismatch (deployment_issues d) = [])
  /\ (dep_spec_replicas d = None -> dep_status_available_replicas d = Some 1 ->
      List.filter is_replica_mismatch (deployment_issues d) = [replica_mismatch d 0 1]
      /\ severity (replica_mismatch d 0 1) = "warning"
      /\ detail (replica_mismatch d 0 1) = "desired=0, available=1").
Proof.
  split; [by rewrite deployment_issues_with_counts |].
  split; intros Hs Ha; rewrite deployment_issues_mismatch; unfold desired, available;
    rewrite Hs, Ha; simpl; done.
Qed.

Lemma absent_replica_counts_read_as_zero_witness :
  List.filter is_replica_mismatch (deployment_issues (sample_deployment None None)) = []
  /\ List.filter is_replica_mismatch (deployment_issues (sample_deployment None (Some 1)))
     = [replica_mismatch (sample_deployment None (Some 1)) 0 1]
  /\ detail (replica_mismatch (sample_deployment None (Some 1)) 0 1) = "desired=0, available=1".
Proof.
  split; [|split].
  - exact (proj1 (proj2 (absent_replica_counts_read_as_zero (sample_deployment None None)))
             eq_refl eq_refl).
  - exact (proj1 (proj2 (proj2 (absent_replica_counts_read_as_zero
             (sample_deployment None (Some 1)))) eq_refl eq_refl)).
  - reflexivity.
Defined.

(** ** Nodes *)

Lemma foldl_conditions_lookup (conds : list NodeCondition) (m : gmap string NodeCondition)
    (t : string) :
  foldl (fun m c => <[nc_type c := c]> m) m conds !! t
  = match last (filter (fun c => nc_type c = t) conds) with
    | Some c => Some c
    | None => m !! t
    end.
Proof.
  revert m. induction conds as [|c conds IH]; intros m; simpl; [done |].
  rewrite IH, filter_cons. case_decide as Ht.
  - rewrite last_cons. destruct (last _); [done |].
    by rewrite <- Ht, lookup_insert_eq.
  - destruct (last _); [done |]. by rewrite lookup_insert_ne.
Qed.

Lemma conditions_by_type_lookup (conds : list NodeCondition) (t : string) :
  conditions_by_type conds !! t = last (filter (fun c => nc_type c = t) conds).
Proof.
  unfold conditions_by_type. rewrite foldl_conditions_lookup.
  by destruct (last _).
Qed.

Lemma node_not_ready_is_warning name ready :
  is_not_ready_warning (node_not_ready name ready) = true.
Proof.
  unfold is_not_ready_warning. simpl.
  apply (contains_app "Node " "NotReady" (": " +:+ name)).
Qed.

Lemma pressure_title_contains name t :
  t ∈ ["DiskPressure"; "MemoryPressure"; "PIDPressure"] ->
  contains "NotReady" ("Node pressure " +:+ t +:+ ": " +:+ name)
  = contains "NotReady" name.
Proof.
  rewrite !elem_of_cons, elem_of_nil. intros [-> | [-> | [-> | []]]]; reflexivity.
Qed.

Lemma flat_map_nil {A B} (f : A -> list B) (l : list A) :
  (forall x, x ∈ l -> f x = []) -> flat_map f l = [].
Proof.
  induction l as [|x l IH]; intros H; simpl; [done |].
  rewrite (H x), IH; [done | | ]; intros; try apply H; by constructor.
Qed.

Lemma node_pressure_not_flagged name t c :
  t ∈ ["DiskPressure"; "MemoryPressure"; "PIDPressure"] ->
  contains "NotReady" name = false ->
  is_not_ready_warning (node_pressure name t c) = false.
Proof.
  intros Ht Hname. unfold is_not_ready_warning, node_pressure; cbn [severity title].
  by rewrite pressure_title_contains, Hname.
Qed.

Lemma node_issues_not_ready (n : Node) :
  contains "NotReady" (node_name n) = false ->
  List.filter is_not_ready_warning (node_issues n)
  = match ready_condition n with
    | Some r => if decide (nc_status r = Some "True") then []
                else [node_not_ready (node_name n) (Some r)]
    | None => [node_not_ready (node_name n) None]
    end.
Proof.
  intros Hname. unfold node_issues, ready_condition.
  rewrite !List.filter_app, filter_flat_map, flat_map_nil.
  - rewrite app_nil_r.
    replace (List.filter is_not_ready_warning
               (if default false (node_spec_unschedulable n)
                then [node_cordoned (node_name n)] else [])) with (@nil Issue)
      by (by destruct (default false _)).
    rewrite app_nil_r, conditions_by_type_lookup.
    destruct (last _) as [r|]; cbn [not_ready].
    + case_decide as Hs.
      * by rewrite Hs.
      * assert (negb (eq_str (nc_status r) "True") = true) as ->.
        { destruct (nc_status r) as [s|]; simpl; [|done].
          destruct (String.eqb_spec s "True"); [congruence | done]. }
        cbn [List.filter app]. by rewrite (node_not_ready_is_warning _ (Some r)).
    + cbn [List.filter app]. by rewrite (node_not_ready_is_warning _ None).
  - intros t Ht. destruct (_ !! t) as [c|]; [|done].
    destruct (eq_str _ _); [|done]. simpl.
    by rewrite node_pressure_not_flagged.
Qed.

(** Claim C7.  When the listing succeeds, the warnings of [check_nodes]
    whose title contains "NotReady" are exactly one per node whose Ready
    condition is absent or has a status other than "True", and none for a
    node whose Ready status is "True"; the issue is titled
    "Node NotReady: <name>" and its detail gives the condition's status
    and last heartbeat time.  Node names are RFC 1123 names, lower case,
    so they never contain "NotReady" themselves. *)
Theorem check_nodes_not_ready (v1 : CoreV1Api) (nodes : list Node) :
  list_node v1 = Ret nodes ->
  Forall (fun n => contains "NotReady" (node_name n) = false) nodes ->
  exists issues,
    check_nodes v1 = Ret issues
    /\ List.filter is_not_ready_warning issues
       = flat_map (fun n =>
           match ready_condition n with
           | Some r => if decide (nc_status r = Some "True") then []
                       else [node_not_ready (node_name n) (Some r)]
           | None => [node_not_ready (node_name n) None]
           end) nodes
    /\ forall name r, let it := node_not_ready name (Some r) in
         severity it = "warning"
         /\ title it = "Node NotReady: " +:+ name
         /\ detail it = "Ready=" +:+ fmt (nc_status r) +:+ " (lastHeartbeat="
                        +:+ fmt_time (nc_last_heartbeat_time r) +:+ ")".
Proof.
  intros Hlist Hnames. exists (flat_map node_issues nodes). split; [|split].
  - unfold check_nodes. by rewrite Hlist.
  - rewrite filter_flat_map.
    clear Hlist. induction Hnames as [|n nodes' Hn _ IH]; cbn [flat_map]; [done |].
    by rewrite IH, node_issues_not_ready.
  - done.
Qed.

(** Of three cordoned nodes, one not ready, one ready and one without
    conditions, the first and the last get their one NotReady warning. *)
Lemma check_nodes_not_ready_witness :
  exists issues,
    check_nodes (client_of (Ret sample_nodes) (Ret []) (Ret []) (Ret [])) = Ret issues
    /\ title <$> List.filter is_not_ready_warning issues
       = ["Node NotReady: node-a"; "Node NotReady: node-c"]
    /\ detail <$> List.filter is_not_ready_warning issues
       = ["Ready=False (lastHeartbeat=2023-11-14 22:13:20+00:00)";
          "Ready=Unknown (lastHeartbeat=unknown)"].
Proof.
  destruct (check_nodes_not_ready (client_of (Ret sample_nodes) (Ret []) (Ret []) (Ret []))
              sample_nodes eq_refl) as (issues & Hrun & Hfilter & _).
  { repeat constructor. }
  exists issues. split; [exact Hrun |]. rewrite Hfilter. split; reflexivity.
Defined.

Lemma lowercase_name_no_NotReady (s : string) :
  Forall (fun c => c <> "N"%char) (String.list_ascii_of_string s) ->
  contains "NotReady" s = false.
Proof.
  induction s as [|c s IH]; [done |].
  intros [Hc Hs]%Forall_cons.
  change (contains "NotReady" (String c s))
    with (String.prefix "NotReady" (String c s) || contains "NotReady" s).
  rewrite (IH Hs), orb_false_r. cbn [String.prefix].
  destruct (Ascii.ascii_dec "N" c); [by subst | done].
Qed.

(** ** Pods *)

Lemma elem_of_flat_map {A B} (f : A -> list B) (l : list A) (y : B) :
  y ∈ flat_map f l <-> exists x, x ∈ l /\ y ∈ f x.
Proof.
  rewrite list_elem_of_In, in_flat_map.
  by setoid_rewrite list_elem_of_In.
Qed.

Lemma container_issues_crashloop_restarts ns name cs w :
  waiting (cs_state cs) = Some w ->
  waiting_reason w = Some "CrashLoopBackOff" ->
  5 < cs_restart_count cs ->
  container_issues ns name cs
  = container_crash ns name (cs_name cs) (Some "CrashLoopBackOff")
      (or_str (waiting_message w) EmptyString)
    :: terminated_issues ns name (cs_name cs) (terminated (cs_last_state cs))
    ++ [high_restart_count ns name (cs_name cs) (cs_restart_count cs)].
Proof.
  intros Hw Hr Hc. unfold container_issues, waiting_issues, restart_issues.
  rewrite Hw, Hr. cbn [reason_in existsb eq_str String.eqb orb].
  replace (negb (cs_restart_count cs =? 0) && (5 <? cs_restart_count cs)) with true; [done |].
  symmetry. apply andb_true_iff. split; [apply negb_true_iff, Z.eqb_neq | apply Z.ltb_lt]; lia.
Qed.

(** Claim C8.  A container that waits with reason "CrashLoopBackOff" and
    has restarted more than five times (seven, say) gets both issues from
    [analyze_pods]: the warning for the waiting reason and, separately,
    the warning for the high restart count; the two are different
    entries of the result, which therefore has at least two. *)
Theorem crashloop_and_restart_count_both_reported
    (v1 : CoreV1Api) (namespace : option string) (pods : list Pod)
    (p : Pod) (cs : ContainerStatus) (w : ContainerStateWaiting) :
  list_pods v1 namespace = Ret pods ->
  p ∈ pods ->
  cs ∈ or_list (pod_status_container_statuses p) ->
  waiting (cs_state cs) = Some w ->
  waiting_reason w = Some "CrashLoopBackOff" ->
  5 < cs_restart_count cs ->
  exists issues,
    analyze_pods v1 namespace = Ret issues
    /\ let crash := container_crash (pod_namespace p) (pod_name p) (cs_name cs)
                      (Some "CrashLoopBackOff") (or_str (waiting_message w) EmptyString) in
       let restarts := high_restart_count (pod_namespace p) (pod_name p) (cs_name cs)
                         (cs_restart_count cs) in
       crash ∈ issues /\ restarts ∈ issues /\ crash <> restarts
       /\ severity crash = "warning" /\ severity restarts = "warning"
       /\ (2 <= length issues)%nat.
Proof.
  intros Hlist Hp Hcs Hw Hr Hc.
  exists (flat_map pod_issues pods). split.
  { unfold analyze_pods. by rewrite Hlist. }
  set (crash := container_crash _ _ _ _ _). set (restarts := high_restart_count _ _ _ _).
  assert (Hin : forall it, it ∈ container_issues (pod_namespace p) (pod_name p) cs ->
                           it ∈ flat_map pod_issues pods).
  { intros it Hit. apply elem_of_flat_map. exists p. split; [done |].
    unfold pod_issues. apply elem_of_app. right.
    apply elem_of_flat_map. by exists cs. }
  assert (Hcrash : crash ∈ flat_map pod_issues pods).
  { apply Hin. rewrite (container_issues_crashloop_restarts _ _ _ w) by done. by left. }
  assert (Hrestarts : restarts ∈ flat_map pod_issues pods).
  { apply Hin. rewrite (container_issues_crashloop_restarts _ _ _ w) by done.
    right. apply elem_of_app. right. by left. }
  assert (Hne : crash <> restarts) by (intros [=]).
  repeat split; try done.
  apply list_elem_of_split in Hcrash as (l1 & l2 & Heq).
  rewrite Heq in Hrestarts |- *.
  rewrite length_app. simpl.
  apply elem_of_app in Hrestarts as [H1 | H2].
  - destruct l1; [by apply elem_of_nil in H1 | simpl; lia].
  - apply elem_of_cons in H2 as [?|H2]; [congruence |].
    destruct l2; [by apply elem_of_nil in H2 | simpl; lia].
Qed.

Lemma crashloop_and_restart_count_both_reported_witness :
  exists issues,
    analyze_pods (client_of (Ret []) (Ret [sample_pod]) (Ret []) (Ret [])) None = Ret issues
    /\ title <$> issues = ["Container CrashLoopBackOff/Error: default/web-0:app";
                           "High restart count: default/web-0:app"]
    /\ (2 <= length issues)%nat.
Proof.
  destruct (crashloop_and_restart_count_both_reported
              (client_of (Ret []) (Ret [sample_pod]) (Ret []) (Ret [])) None
              [sample_pod] sample_pod sample_container
              {| waiting_reason := Some "CrashLoopBackOff";
                 waiting_message := Some "back-off restarting" |})
    as (issues & Hrun & _ & _ & _ & _ & _ & Hlen).
  - reflexivity.
  - by left.
  - by left.
  - reflexivity.
  - reflexivity.
  - reflexivity.
  - exists issues. split; [exact Hrun |]. split; [|exact Hlen].
    injection Hrun as <-. reflexivity.
Defined.

(** ** Listing failures *)

Lemma check_nodes_listing_failure v1 e :
  list_node v1 = Raise (ApiException e) ->
  check_nodes v1 = Ret [listing_failure "nodes" e].
Proof. unfold check_nodes. by intros ->. Qed.

Lemma check_deployments_listing_failure apps namespace e :
  list_deployments apps namespace = Raise (ApiException e) ->
  check_deployments apps namespace = Ret [listing_failure "deployments" e].
Proof. unfold check_deployments. by intros ->. Qed.

Lemma check_pvcs_listing_failure v1 namespace e :
  list_pvcs v1 namespace = Raise (ApiException e) ->
  check_pvcs v1 namespace = Ret [listing_failure "PVCs" e].
Proof. unfold check_pvcs. by intros ->. Qed.

Lemma collect_events_listing_failure v1 now since_minutes namespace e :
  list_events v1 namespace = Raise (ApiException e) ->
  collect_events v1 now since_minutes namespace = Ret [listing_failure "events" e].
Proof. unfold collect_events. by intros ->. Qed.

(** The pod classifier has no handler: a failed listing leaves it as the
    exception it was. *)
Lemma analyze_pods_listing_failure v1 namespace e :
  list_pods v1 namespace = Raise e ->
  analyze_pods v1 namespace = Raise e.
Proof. unfold analyze_pods. by intros ->. Qed.

(** Claim C2, on a cluster that refuses every listing call with the same
    API error: the classifiers of nodes, deployments, claims and events
    each return their single error issue, with the error text as detail
    and the RBAC/connectivity suggestion, while the pod classifier returns
    nothing and raises the error to its caller. *)
Theorem pod_listing_failure_is_raised :
  check_nodes refusing_core_v1 = Ret [listing_failure "nodes" forbidden]
  /\ check_deployments refusing_apps_v1 None = Ret [listing_failure "deployments" forbidden]
  /\ check_pvcs refusing_core_v1 None = Ret [listing_failure "PVCs" forbidden]
  /\ collect_events refusing_core_v1 sample_now 60 None
     = Ret [listing_failure "events" forbidden]
  /\ severity (listing_failure "PVCs" forbidden) = "error"
  /\ suggestion (listing_failure "PVCs" forbidden) = "Check RBAC and connectivity"
  /\ analyze_pods refusing_core_v1 None = Raise (ApiException forbidden)
  /\ analyze_pods refusing_core_v1 (Some "default") = Raise (ApiException forbidden).
Proof. repeat split. Qed.

(** ** Events *)

Lemma event_time_of_first_present (e : CoreEvent) : event_time_of e = first_present e.
Proof.
  unfold event_time_of, first_present, or_time.
  by destruct (ev_last_timestamp e), (ev_event_time e), (ev_first_timestamp e).
Qed.

Lemma cutoff_of_window (now : Q) (since_minutes : Z) :
  (cutoff_of now since_minutes == now - inject_Z since_minutes * 60)%Q.
Proof.
  unfold cutoff_of. rewrite inject_Z_mult. reflexivity.
Qed.

Lemma Qltb_lt (a b : Q) : Qltb a b = true <-> (a < b)%Q.
Proof.
  unfold Qltb. rewrite negb_true_iff, <- not_true_iff_false, Qle_bool_iff.
  split; [apply Qnot_le_lt | apply Qlt_not_le].
Qed.

Lemma event_issues_recent_warning (now : Q) (since_minutes : Z) (e : CoreEvent) :
  event_issues (cutoff_of now since_minutes) e
  = if decide (recent_warning now since_minutes e) then [event_issue e] else [].
Proof.
  unfold event_issues, try_timestamp. rewrite event_time_of_first_present.
  case_decide as Hrw.
  - destruct Hrw as (t & -> & Hnew & ->).
    destruct (Qltb _ _) eqn:Hlt; [|done].
    apply Qltb_lt in Hlt. rewrite cutoff_of_window in Hlt. done.
  - destruct (first_present e) as [t|] eqn:Ht; [|done].
    destruct (Qltb _ _) eqn:Hlt; [done |].
    destruct (ev_type e) as [ty|] eqn:Hty; [|done]. simpl.
    destruct (String.eqb_spec ty "Warning") as [->|]; [|done].
    exfalso. apply Hrw. exists t. split; [done |]. split; [|done].
    intros Hold. rewrite <- cutoff_of_window in Hold.
    apply Qltb_lt in Hold. congruence.
Qed.

(** Claim C4.  When the listing succeeds, [collect_events] returns one
    issue for each event that is a recent warning, in listing order, and
    nothing else: the event's time is the first present of last-seen,
    event and first-seen time; an event without any of them, or whose
    time is before now minus the window, is skipped; of the others
    exactly those of type "Warning" are promoted.  Under the 60-minute
    window a Warning 30 minutes old is a recent warning, one 90 minutes
    old is not, and an event of type "Normal" never is. *)
Theorem collect_events_recent_warnings
    (v1 : CoreV1Api) (now : Q) (since_minutes : Z) (namespace : option string)
    (events : list CoreEvent) :
  list_events v1 namespace = Ret events ->
  collect_events v1 now since_minutes namespace
  = Ret (flat_map (fun e => if decide (recent_warning now since_minutes e)
                            then [event_issue e] else []) events)
  /\ (forall e t, first_present e = Some t -> ev_type e = Some "Warning" ->
        (timestamp t == now - 30 * 60)%Q -> recent_warning now 60 e)
  /\ (forall e t, first_present e = Some t ->
        (timestamp t == now - 90 * 60)%Q -> ~ recent_warning now 60 e)
  /\ (forall e, ev_type e = Some "Normal" -> ~ recent_warning now since_minutes e).
Proof.
  intros Hlist. repeat split.
  - unfold collect_events. rewrite Hlist. f_equal.
    apply flat_map_ext. intros e. apply event_issues_recent_warning.
  - intros e t Ht Hty Hts. exists t. split; [done |]. split; [|done].
    rewrite Hts. change (inject_Z 60) with 60%Q. lra.
  - intros e t Ht Hts (t' & Ht' & Hnew & _).
    rewrite Ht in Ht'. injection Ht' as <-. apply Hnew.
    rewrite Hts. change (inject_Z 60) with 60%Q. lra.
  - intros e Hty (_ & _ & _ & Hw). congruence.
Qed.

(** Of the six sample events only the Warning seen 30 minutes ago and the
    Warning first seen 10 minutes ago are promoted; the one whose
    last-seen time is 90 minutes old is skipped although its event time
    is recent. *)
Lemma collect_events_recent_warnings_witness :
  collect_events (client_of (Ret []) (Ret []) (Ret []) (Ret sample_events)) sample_now 60 None
  = Ret [event_issue (sample_event "Warning" (minutes_ago 30) None None);
         event_issue (sample_event "Warning" None None (minutes_ago 10))]
  /\ recent_warning sample_now 60 (sample_event "Warning" (minutes_ago 30) None None)
  /\ ~ recent_warning sample_now 60 (sample_event "Warning" (minutes_ago 90) None None)
  /\ ~ recent_warning sample_now 60 (sample_event "Normal" (minutes_ago 1) None None).
Proof.
  destruct (collect_events_recent_warnings
              (client_of (Ret []) (Ret []) (Ret []) (Ret sample_events))
              sample_now 60 None sample_events eq_refl) as (Hrun & H30 & H90 & Hnormal).
  split; [exact Hrun |]. split; [|split].
  - apply (H30 _ {| timestamp := sample_now - inject_Z 30 * 60; str_datetime := "-" |});
      reflexivity.
  - apply (H90 _ {| timestamp := sample_now - inject_Z 90 * 60; str_datetime := "-" |});
      reflexivity.
  - apply Hnormal. reflexivity.
Defined.

(** ** The local manifest check *)

Lemma dict_get_present (k : string) (entries : list (yaml * yaml)) (a b : yaml) :
  dict_has k entries = true -> dict_get k entries a = dict_get k entries b.
Proof.
  unfold dict_get, dict_has. revert a b.
  induction entries as [|kv entries IH]; intros a b; simpl; [done |].
  destruct (is_str k kv.1); simpl; [intros _ | by apply IH].
  generalize kv.2. clear. induction entries as [|kv entries IH]; intros v; simpl; [done |].
  destruct (is_str k kv.1); apply IH.
Qed.

Lemma lacks_metadata_name_mapping (entries : list (yaml * yaml)) :
  metadata_is_mapping (YMap entries) = true ->
  lacks_metadata_name entries = Ret (negb (has_metadata_name entries)).
Proof.
  unfold metadata_is_mapping, lacks_metadata_name, has_metadata_name.
  destruct (dict_has "metadata" entries) eqn:Hhas; simpl; [|done].
  rewrite (dict_get_present _ _ (YMap []) YNull) by done.
  by destruct (dict_get "metadata" entries YNull).
Qed.

Lemma document_problems_expected (i : nat) (d : yaml) :
  metadata_is_mapping d = true ->
  document_problems i d = Ret (expected_problems i d).
Proof.
  destruct d as [| | | | | |entries]; try done.
  intros Hm. unfold document_problems, expected_problems.
  rewrite lacks_metadata_name_mapping by done. simpl.
  by destruct (has_metadata_name entries).
Qed.

(** On documents whose [metadata], where present, is a mapping, the loop
    records for each document, under its index, one string per missing
    requirement and nothing else. *)
Lemma documents_problems_expected (i : nat) (docs : list yaml) :
  Forall (fun d => metadata_is_mapping d = true) docs ->
  documents_problems i docs
  = Ret (concat (imap (fun j d => expected_problems (i + j) d) docs)).
Proof.
  intros Hdocs. revert i. induction Hdocs as [|d docs Hd _ IH]; intros i; simpl; [done |].
  rewrite document_problems_expected, IH by done. simpl.
  rewrite Nat.add_0_r. do 3 f_equal. apply imap_ext. intros j x _. simpl. f_equal. lia.
Qed.

(** Whenever the check returns on parsed documents, its verdict is
    positive exactly when no problem was recorded. *)
Lemma local_check_ok_iff_no_problem (docs : list yaml) (ok : bool) (out : string) :
  simple_local_manifest_check (inr docs) = Ret (ok, out) ->
  exists problems, documents_problems 0 docs = Ret problems
    /\ (ok = true <-> problems = [])
    /\ out = match problems with [] => "Basic YAML checks passed." | _ => join nl problems end.
Proof.
  unfold simple_local_manifest_check.
  destruct (documents_problems 0 docs) as [problems|e]; simpl; [|done].
  intros [= <- <-]. exists problems. split; [done |]. split; [|done].
  by destruct problems.
Qed.

(** A file that cannot be parsed fails with the parser's message, which
    is not what an empty file gives. *)
Lemma parse_failure_is_distinct (e : string) :
  simple_local_manifest_check (inl e) = Ret (false, "YAML parse error: " +:+ e)
  /\ simple_local_manifest_check (inr []) = Ret (true, "Basic YAML checks passed.")
  /\ simple_local_manifest_check (inl e) <> simple_local_manifest_check (inr []).
Proof. done. Qed.

(** Two documents, the first without [kind] and the second without
    [metadata.name]: a failed verdict and two different problem strings,
    one for each document. *)
Lemma two_documents_two_problems :
  documents_problems 0 [doc_without_kind; doc_without_name]
  = Ret ["Document 0 missing 'kind'"; "Document 1 missing metadata.name"]
  /\ simple_local_manifest_check (inr [doc_without_kind; doc_without_name])
     = Ret (false, "Document 0 missing 'kind'" +:+ nl +:+ "Document 1 missing metadata.name").
Proof. done. Qed.

(** Claim C5, at a manifest whose one document has a [metadata:] key
    without a value.  The document has no [metadata.name], yet the check
    records no problem and returns no verdict: the membership test on
    [None] raises a [TypeError], and a run of the driver on that manifest
    ends with the exception uncaught.  A [metadata] that is a text
    containing "name" passes the check instead. *)
Theorem local_check_raises_on_null_metadata :
  has_metadata_name [(YStr "apiVersion", YStr "v1"); (YStr "kind", YStr "Pod");
                     (YStr "metadata", YNull)] = false
  /\ simple_local_manifest_check (inr [doc_null_metadata])
     = Raise (TypeError "argument of type 'NoneType' is not iterable")
  /\ (run_main (world_without_kubectl [doc_null_metadata]) (manifest_only false)).1
     = Uncaught (TypeError "argument of type 'NoneType' is not iterable")
  /\ simple_local_manifest_check (inr [doc_text_metadata])
     = Ret (true, "Basic YAML checks passed.").
Proof. done. Qed.

(** Claim C9.  A manifest that parses to zero documents passes the local
    check with the text "Basic YAML checks passed.", and so does the
    validation of a run on a machine without kubectl. *)
Theorem empty_manifest_is_accepted :
  simple_local_manifest_check (inr []) = Ret (true, "Basic YAML checks passed.")
  /\ forall tr, validate_manifest "app.yaml" None (world_without_kubectl []) tr
       = (Done (true, "Basic YAML checks passed."),
          tr ++ [Print "[manifest] Validating manifest: app.yaml";
                 Which false;
                 SafeLoadAll "app.yaml" (inr []);
                 Print "[manifest] Kubectl not found; performed basic YAML checks:";
                 Print "Basic YAML checks passed."]).
Proof.
  split; [done |]. intros tr.
  unfold validate_manifest, mbind, io_bind, print, kubectl_available, load_documents, call,
    mret, io_ret; simpl.
  by rewrite <- !app_assoc.
Qed.

(** ** Sorting by key *)

Section sorted_facts.
Context {A K : Type} `{EqDecision K} (key : A -> K) (leb : K -> K -> bool).

Local Abbreviation by_key := (by_key key leb).

Hypothesis leb_total : forall a b, leb a b = true \/ leb b a = true.
Hypothesis leb_trans : forall a b c, leb a b = true -> leb b c = true -> leb a c = true.
Hypothesis leb_antisym : forall a b, leb a b = true -> leb b a = true -> a = b.

Lemma leb_refl a : leb a a = true.
Proof. by destruct (leb_total a a). Qed.

Lemma insert_by_perm x l : insert_by key leb x l ≡ₚ x :: l.
Proof.
  induction l as [|y l IH]; simpl; [done |].
  destruct (leb (key x) (key y)); [done |].
  rewrite IH. apply Permutation_swap.
Qed.

Lemma sorted_perm l : sorted key leb l ≡ₚ l.
Proof.
  induction l as [|x l IH]; simpl; [done |].
  by rewrite insert_by_perm, IH.
Qed.

Lemma insert_by_sorted x l :
  StronglySorted by_key l -> StronglySorted by_key (insert_by key leb x l).
Proof.
  induction 1 as [|y l Hl IH Hy]; simpl.
  - repeat constructor.
  - destruct (leb (key x) (key y)) eqn:Hxy.
    + constructor; [by constructor |]. constructor; [done |].
      eapply Forall_impl; [exact Hy |]. intros z Hz. by eapply leb_trans.
    + constructor; [done |].
      rewrite insert_by_perm. constructor; [|done].
      destruct (leb_total (key x) (key y)); [congruence | done].
Qed.

Lemma sorted_sorted l : StronglySorted by_key (sorted key leb l).
Proof.
  induction l as [|x l IH]; simpl; [constructor | by apply insert_by_sorted].
Qed.

(** Insertion keeps the entries of each key in their order. *)
Lemma insert_by_stable k x l :
  filter (fun y => key y = k) (insert_by key leb x l)
  = filter (fun y => key y = k) (x :: l).
Proof.
  induction l as [|y l IH]; simpl; [done |].
  destruct (leb (key x) (key y)) eqn:Hxy; [done |].
  rewrite (filter_cons _ y), IH, !(filter_cons _ x), (filter_cons _ y).
  repeat case_decide; try done.
  rewrite <- H0 in H. rewrite H, leb_refl in Hxy. done.
Qed.

Lemma sorted_stable k l :
  filter (fun y => key y = k) (sorted key leb l) = filter (fun y => key y = k) l.
Proof.
  induction l as [|x l IH]; simpl; [done |].
  by rewrite insert_by_stable, !filter_cons, IH.
Qed.

Lemma same_groups_nil l :
  (forall k, filter (fun y => key y = k) l = []) -> l = [].
Proof.
  destruct l as [|y l]; [done |]. intros H. specialize (H (key y)).
  by rewrite filter_cons_True in H.
Qed.

(** Two lists sorted by key that hold, for every key, the same entries
    in the same order are the same list: a stable sort has one result. *)
Lemma stable_sort_unique l1 l2 :
  StronglySorted by_key l1 -> StronglySorted by_key l2 ->
  (forall k, filter (fun y => key y = k) l1 = filter (fun y => key y = k) l2) ->
  l1 = l2.
Proof.
  intros H1. revert l2. induction H1 as [|x l1 Hl1 IH Hx]; intros l2 H2 Hgroups.
  { symmetry. apply same_groups_nil. intros k. by rewrite <- Hgroups. }
  destruct H2 as [|y l2 Hl2 Hy].
  { specialize (Hgroups (key x)). by rewrite filter_cons_True in Hgroups. }
  assert (Hkey : key x = key y).
  { apply leb_antisym.
    - assert (Hin : y ∈ filter (fun z => key z = key y) (x :: l1)).
      { rewrite Hgroups, filter_cons_True by done. by left. }
      apply list_elem_of_filter in Hin as [_ Hin].
      apply elem_of_cons in Hin as [->|Hin]; [apply leb_refl |].
      by apply (proj1 (Forall_forall _ _) Hx).
    - assert (Hin : x ∈ filter (fun z => key z = key x) (y :: l2)).
      { rewrite <- Hgroups, filter_cons_True by done. by left. }
      apply list_elem_of_filter in Hin as [_ Hin].
      apply elem_of_cons in Hin as [->|Hin]; [apply leb_refl |].
      by apply (proj1 (Forall_forall _ _) Hy). }
  pose proof (Hgroups (key x)) as Hhead.
  rewrite filter_cons_True in Hhead by done.
  rewrite filter_cons_True in Hhead by done.
  injection Hhead as <- Htail. f_equal. apply IH; [done |].
  intros k. destruct (decide (key x = k)) as [<-|Hk]; [done |].
  specialize (Hgroups k). by rewrite !filter_cons_False in Hgroups.
Qed.

Lemma StronglySorted_lookup (R : relation A) l i j a b :
  StronglySorted R l -> (i < j)%nat -> l !! i = Some a -> l !! j = Some b -> R a b.
Proof.
  intros Hl. revert i j. induction Hl as [|x l Hl IH Hx]; intros i j Hij Hi Hj; [done |].
  destruct j as [|j]; [lia |]. simpl in Hj.
  destruct i as [|i]; simpl in Hi.
  - injection Hi as <-. apply (proj1 (Forall_forall _ _) Hx).
    by eapply list_elem_of_lookup_2.
  - apply (IH i j); [lia | done..].
Qed.
End sorted_facts.

(** ** The order of the report *)

Lemma string_leb_trans (a b c : string) :
  String.leb a b = true -> String.leb b c = true -> String.leb a c = true.
Proof.
  rewrite <- !Is_true_true. intros Hab Hbc.
  exact (transitivity (R := String.le) Hab Hbc).
Qed.

Lemma key_leb_total (a b : Z * string) : key_leb a b = true \/ key_leb b a = true.
Proof.
  unfold key_leb.
  destruct (Z.ltb_spec a.1 b.1); [by left |].
  destruct (Z.ltb_spec b.1 a.1); [by right |].
  assert (a.1 = b.1) as -> by lia. rewrite Z.eqb_refl. simpl.
  apply String.leb_total.
Qed.

Lemma key_leb_trans (a b c : Z * string) :
  key_leb a b = true -> key_leb b c = true -> key_leb a c = true.
Proof.
  unfold key_leb. rewrite !orb_true_iff, !andb_true_iff, !Z.ltb_lt, !Z.eqb_eq.
  intros [Hab | [Hab Sab]] [Hbc | [Hbc Sbc]]; [left; lia.. |].
  right. split; [lia |]. by eapply string_leb_trans.
Qed.

Lemma key_leb_antisym (a b : Z * string) :
  key_leb a b = true -> key_leb b a = true -> a = b.
Proof.
  unfold key_leb. rewrite !orb_true_iff, !andb_true_iff, !Z.ltb_lt, !Z.eqb_eq.
  destruct a as [ra ta], b as [rb tb]; simpl.
  intros [Hab | [Hab Sab]] [Hba | [Hba Sba]]; try lia.
  f_equal; [done |]. by apply String.leb_antisym.
Qed.

Lemma key_le_ranks (a b : Issue) :
  key_le (sort_key a) (sort_key b) ->
  sev_rank (severity a) <= sev_rank (severity b)
  /\ (sev_rank (severity a) = sev_rank (severity b) ->
      String.leb (title a) (title b) = true).
Proof.
  unfold key_le, key_leb, sort_key; simpl.
  rewrite orb_true_iff, andb_true_iff, Z.ltb_lt, Z.eqb_eq.
  intros [Hlt | [Heq Hs]]; [split; lia | split; [lia | done]].
Qed.

(** Claim C3.  The list the report renders is the stable sort of the
    list it is given, by severity rank (error 0, warning 1, info 2) and
    then title: it is a permutation of the input; an earlier entry never
    has a higher rank than a later one, so errors come before warnings
    and warnings before infos, and of two entries of one rank the earlier
    has the lexicographically smaller or equal title; entries with the
    same key keep the order they had in the input; and it is the only
    list with these properties.  The lines printed for a non-empty input
    are the entries of that list, numbered from 1. *)
Theorem issues_sorted_is_stable_sort (issues : list Issue) :
  issues_sorted issues ≡ₚ issues
  /\ StronglySorted (fun a b => key_le (sort_key a) (sort_key b)) (issues_sorted issues)
  /\ (sev_rank "error" = 0 /\ sev_rank "warning" = 1 /\ sev_rank "info" = 2)
  /\ (forall i j a b, (i < j)%nat ->
        issues_sorted issues !! i = Some a -> issues_sorted issues !! j = Some b ->
        sev_rank (severity a) <= sev_rank (severity b)
        /\ (sev_rank (severity a) = sev_rank (severity b) ->
            String.leb (title a) (title b) = true)
        /\ (severity b = "error" -> severity a <> "warning" /\ severity a <> "info")
        /\ (severity b = "warning" -> severity a <> "info"))
  /\ (forall k, filter (fun it => sort_key it = k) (issues_sorted issues)
                = filter (fun it => sort_key it = k) issues)
  /\ (forall l, StronglySorted (fun a b => key_le (sort_key a) (sort_key b)) l ->
        (forall k, filter (fun it => sort_key it = k) l
                   = filter (fun it => sort_key it = k) issues) ->
        l = issues_sorted issues)
  /\ (issues <> [] ->
      pretty_print_issues issues
      = (nl +:+ "Detected issues & suggested fixes:")
        :: concat (imap (fun i it => render_issue (S i) it) (issues_sorted issues))).
Proof.
  assert (Hsorted : StronglySorted (by_key sort_key key_leb) (issues_sorted issues))
    by (apply sorted_sorted; [apply key_leb_total | apply key_leb_trans]).
  assert (Hstable : forall k, filter (fun it => sort_key it = k) (issues_sorted issues)
                              = filter (fun it => sort_key it = k) issues)
    by (intros k; apply sorted_stable, key_leb_total).
  split; [apply sorted_perm |]. split; [exact Hsorted |]. split; [done |].
  split; [|split; [exact Hstable |split]].
  - intros i j a b Hij Ha Hb.
    pose proof (StronglySorted_lookup _ _ _ _ _ _ Hsorted Hij Ha Hb) as Hab.
    apply key_le_ranks in Hab as [Hrank Htitle].
    split; [done |]. split; [done |].
    split; intros Hsev; rewrite Hsev in Hrank; [split |]; intros Hsev'; rewrite Hsev' in Hrank;
      by vm_compute in Hrank.
  - intros l Hl Hgroups.
    eapply (stable_sort_unique sort_key key_leb);
      [apply key_leb_total | apply key_leb_antisym | exact Hl | exact Hsorted |].
    intros k. by rewrite Hgroups, Hstable.
  - by destruct issues.
Qed.

(** Seven issues in the order of the scan: the two errors come first,
    then the warnings by title with the two equal-titled events in their
    original order, then the info. *)
Lemma issues_sorted_is_stable_sort_witness :
  (title <$> issues_sorted sample_issues
   = ["Failed to list PVCs"; "Failed to list events";
      "Event: Pod web-0 - BackOff"; "Event: Pod web-0 - BackOff";
      "Node NotReady: node-a"; "Node pressure DiskPressure: node-a";
      "Node Cordoned (unschedulable): node-a"])
  /\ (detail <$> filter (fun it => sort_key it = (1, "Event: Pod web-0 - BackOff"))
                   (issues_sorted sample_issues) = ["first"; "second"])
  /\ sev_rank "error" <= sev_rank "warning"
  /\ issues_sorted sample_issues ≡ₚ sample_issues.
Proof.
  destruct (issues_sorted_is_stable_sort sample_issues)
    as (Hperm & _ & _ & Horder & Hstable & _ & _).
  split; [reflexivity |]. split; [by rewrite Hstable |]. split; [|exact Hperm].
  refine (proj1 (Horder 1%nat 2%nat (sample_issue "error" "Failed to list events")
                   {| severity := "warning"; title := "Event: Pod web-0 - BackOff";
                      detail := "first"; suggestion := "-" |} _ eq_refl eq_refl)).
  lia.
Defined.

(** ** The apply gate *)

Lemma io_bind_run {A B} (m : io A) (k : A -> io B) w tr :
  (m ≫= k) w tr
  = match m w tr with
    | (Done a, tr') => k a w tr'
    | (Uncaught e, tr') => (Uncaught e, tr')
    | (Exit c, tr') => (Exit c, tr')
    end.
Proof. reflexivity. Qed.

Lemma quiet_not_apply ef : is_quiet ef = true -> is_apply ef = false.
Proof. by destruct ef. Qed.

Lemma quiet_no_verdict ef : is_quiet ef = true -> verdict_of ef = None.
Proof. by destruct ef. Qed.

Lemma quiet_all_not_apply es :
  Forall (fun ef => is_quiet ef = true) es -> Forall (fun ef => is_apply ef = false) es.
Proof. intros H. eapply Forall_impl; [exact H | apply quiet_not_apply]. Qed.

Lemma verdicts_app l1 l2 : verdicts (l1 ++ l2) = verdicts l1 ++ verdicts l2.
Proof. apply omap_app. Qed.

Lemma verdicts_cons ef l :
  verdicts (ef :: l)
  = match verdict_of ef with Some v => v :: verdicts l | None => verdicts l end.
Proof. reflexivity. Qed.

Lemma verdicts_quiet es : Forall (fun ef => is_quiet ef = true) es -> verdicts es = [].
Proof.
  induction 1 as [|ef es Hq _ IH]; [done |].
  unfold verdicts in *. simpl. by rewrite (quiet_no_verdict _ Hq).
Qed.

Lemma quiet_ret {A} (a : A) : quiet_io (mret a).
Proof. intros w tr. exists []. by rewrite app_nil_r. Qed.

Lemma quiet_print line : quiet_io (print line).
Proof. intros w tr. exists [Print line]. split; [done | by repeat constructor]. Qed.

Lemma quiet_call {A} (m : py A) : quiet_io (call m).
Proof. intros w tr. exists []. by rewrite app_nil_r. Qed.

Lemma quiet_world : quiet_io world.
Proof. intros w tr. exists []. by rewrite app_nil_r. Qed.

Lemma quiet_exit {A} c : quiet_io (@sys_exit A c).
Proof. intros w tr. exists []. by rewrite app_nil_r. Qed.

Lemma quiet_bind {A B} (m : io A) (k : A -> io B) :
  quiet_io m -> (forall a, quiet_io (k a)) -> quiet_io (m ≫= k).
Proof.
  intros Hm Hk w tr. rewrite io_bind_run.
  destruct (Hm w tr) as (ps & Htr & Hps).
  destruct (m w tr) as [[a|e|c] tr']; simpl in Htr; subst tr';
    [|by exists ps..].
  destruct (Hk a w (tr ++ ps)) as (qs & Htr & Hqs).
  exists (ps ++ qs). rewrite Htr, app_assoc. split; [done | by apply Forall_app].
Qed.

Lemma quiet_print_all lines : quiet_io (print_all lines).
Proof.
  induction lines as [|l lines IH]; simpl; [apply quiet_ret |].
  apply quiet_bind; [apply quiet_print | done].
Qed.

Lemma quiet_load_k8s_config : quiet_io load_k8s_config.
Proof.
  apply quiet_bind; [apply quiet_world |]. intros w.
  destruct (load_kube_config w); [|apply quiet_print].
  destruct (load_incluster_config w); [|apply quiet_print].
  apply quiet_bind; [apply quiet_print | intros; apply quiet_exit].
Qed.

Lemma quiet_scan_cluster namespace : quiet_io (scan_cluster namespace).
Proof.
  unfold scan_cluster.
  repeat (apply quiet_bind;
          [first [apply quiet_load_k8s_config | apply quiet_world
                 | apply quiet_print | apply quiet_call] | intros ?]).
  apply quiet_ret.
Qed.

(** What a validation leaves in the trace: on a verdict, one effect that
    carries this verdict, between probes and output; on an escaping
    exception, no verdict at all; and never a mutation. *)
Lemma validate_manifest_effects manifest namespace w tr :
  exists es,
    (validate_manifest manifest namespace w tr).2 = tr ++ es
    /\ match (validate_manifest manifest namespace w tr).1 with
       | Done (ok, _) =>
           exists before ev quiet,
             es = before ++ ev :: quiet
             /\ Forall (fun ef => is_quiet ef = true) before
             /\ verdict_of ev = Some ok /\ is_apply ev = false
             /\ Forall (fun ef => is_quiet ef = true) quiet
       | Uncaught _ =>
           Forall (fun ef => is_apply ef = false) es /\ verdicts es = []
       | Exit _ => False
       end.
Proof.
  unfold validate_manifest, kubectl_dry_run, kubectl_available, load_documents, run, print,
    call, mbind, io_bind, mret, io_ret.
  destruct (which_kubectl w _).
  - set (res := subprocess_run _ _ _).
    assert (Hdry : is_dry_run (dry_run_cmd manifest namespace) = true) by done.
    destruct (dry_run_verdict res) as [ok out] eqn:Hv.
    eexists. split; [cbn [fst snd]; rewrite <- !app_assoc; reflexivity |]. cbn [fst snd].
    eexists [_; _], (SubprocessRun _ res), [_; _].
    split; [reflexivity |]. split; [by repeat constructor |].
    unfold verdict_of, is_apply. rewrite Hdry, Hv.
    split; [done |]. split; [done |]. by repeat constructor.
  - set (loaded := safe_load_all _ _ _).
    destruct (simple_local_manifest_check loaded) as [[ok out]|e] eqn:Hcheck.
    + eexists. split; [cbn [fst snd]; rewrite <- !app_assoc; reflexivity |]. cbn [fst snd].
      eexists [_; _], (SafeLoadAll _ loaded), [_; _].
      split; [reflexivity |]. split; [by repeat constructor |].
      unfold verdict_of. rewrite Hcheck.
      split; [done |]. split; [done |]. by repeat constructor.
    + eexists. split; [cbn [fst snd]; rewrite <- !app_assoc; reflexivity |]. cbn [fst snd].
      split; [by repeat constructor |].
      unfold verdicts. cbn [omap list_omap app verdict_of]. by rewrite Hcheck.
Qed.

Lemma apply_cmd_mutates manifest namespace res :
  is_apply (SubprocessRun (apply_cmd manifest namespace) res) = true
  /\ verdict_of (SubprocessRun (apply_cmd manifest namespace) res) = None.
Proof. done. Qed.

(** What [apply_manifest] leaves in the trace: a probe and a line of
    output, then the one mutating command if kubectl was found. *)
Lemma apply_manifest_effects manifest namespace w tr :
  exists aq tail,
    (apply_manifest manifest namespace w tr).2 = tr ++ aq ++ tail
    /\ Forall (fun ef => is_quiet ef = true) aq
    /\ (tail = [] \/ exists res, tail = [SubprocessRun (apply_cmd manifest namespace) res])
    /\ match (apply_manifest manifest namespace w tr).1 with
       | Exit _ => False
       | _ => True
       end.
Proof.
  unfold apply_manifest, kubectl_available, run, print, call, mbind, io_bind, mret, io_ret.
  destruct (which_kubectl w _); cbn [negb].
  - set (res := subprocess_run _ _ _).
    exists [Which true; Print ("[apply] Running: " +:+ join " " (apply_cmd manifest namespace))],
           [SubprocessRun (apply_cmd manifest namespace) res].
    destruct res as [proc|e] eqn:Hres; cbn [fst snd];
      (split; [by rewrite <- !app_assoc |]); (split; [by repeat constructor |]);
      (split; [right; by eexists | done]).
  - exists [Which false;
            Print "[apply] kubectl is required to apply manifests from this script."], [].
    cbn [fst snd]. split; [by rewrite <- !app_assoc |].
    split; [by repeat constructor |]. split; [by left | done].
Qed.

Lemma no_apply_split l pre ef post :
  Forall (fun ef => is_apply ef = false) l ->
  l = pre ++ ef :: post -> is_apply ef = true -> False.
Proof.
  intros Hl -> Hef. apply Forall_app in Hl as [_ Hl].
  apply Forall_cons in Hl as [Hno _]. congruence.
Qed.

(** The first mutating effect of a trace is in one place only. *)
Lemma first_apply_split l1 x l2 pre ef post :
  Forall (fun ef => is_apply ef = false) l1 ->
  Forall (fun ef => is_apply ef = false) l2 ->
  l1 ++ x :: l2 = pre ++ ef :: post -> is_apply ef = true ->
  pre = l1.
Proof.
  intros Hl1 Hl2. revert pre. induction Hl1 as [|y l1 Hy _ IH]; intros pre Heq Hef.
  - destruct pre as [|z pre]; [done |]. simpl in Heq. injection Heq as -> Heq.
    exfalso. by eapply (no_apply_split l2).
  - destruct pre as [|z pre]; simpl in Heq; injection Heq as -> Heq.
    + congruence.
    + f_equal. by apply IH.
Qed.

Lemma skip_no_apply l1 l2 pre ef post :
  Forall (fun ef => is_apply ef = false) l1 ->
  l1 ++ l2 = pre ++ ef :: post -> is_apply ef = true ->
  exists pre', pre = l1 ++ pre' /\ l2 = pre' ++ ef :: post.
Proof.
  intros Hl1. revert pre. induction Hl1 as [|y l1 Hy _ IH]; intros pre Heq Hef.
  - by exists pre.
  - destruct pre as [|z pre]; simpl in Heq; injection Heq as -> Heq; [congruence |].
    destruct (IH pre Heq Hef) as (pre' & -> & ->). by exists pre'.
Qed.

(** A trace in which a positive verdict is followed by output and probes
    and then, at most, by one mutating command and more output. *)
Lemma open_gate_shape before ev quiet tail rest manifest namespace :
  Forall (fun ef => is_quiet ef = true) before ->
  verdict_of ev = Some true -> is_apply ev = false ->
  Forall (fun ef => is_quiet ef = true) quiet ->
  (tail = [] \/ exists res, tail = [SubprocessRun (apply_cmd manifest namespace) res]) ->
  Forall (fun ef => is_quiet ef = true) rest ->
  (forall pre ef post, before ++ ev :: quiet ++ tail ++ rest = pre ++ ef :: post ->
     is_apply ef = true ->
     exists before' ev' quiet',
       pre = before' ++ ev' :: quiet'
       /\ Forall (fun ef => is_quiet ef = true) before'
       /\ verdict_of ev' = Some true
       /\ Forall (fun ef => is_quiet ef = true) quiet')
  /\ verdicts (before ++ ev :: quiet ++ tail ++ rest) = [true].
Proof.
  intros Hbefore Hev Hevna Hquiet Htail Hrest. split.
  - intros pre ef post Heq Hef.
    assert (Hhead : Forall (fun ef => is_apply ef = false) (before ++ ev :: quiet)).
    { apply Forall_app; split; [by apply quiet_all_not_apply |].
      constructor; [done | by apply quiet_all_not_apply]. }
    destruct Htail as [-> | [res ->]].
    + exfalso. eapply (no_apply_split _ pre ef post); [|exact Heq | exact Hef].
      rewrite app_comm_cons, app_assoc. apply Forall_app; split; [done |].
      by apply quiet_all_not_apply.
    + assert (pre = before ++ ev :: quiet) as ->.
      { eapply (first_apply_split _ (SubprocessRun (apply_cmd manifest namespace) res) rest);
          [exact Hhead | by apply quiet_all_not_apply | | exact Hef].
        rewrite <- Heq. by rewrite <- !app_assoc. }
      by exists before, ev, quiet.
  - rewrite verdicts_app, (verdicts_quiet before Hbefore).
    rewrite verdicts_cons, Hev, !verdicts_app, (verdicts_quiet quiet Hquiet), (verdicts_quiet rest Hrest).
    by destruct Htail as [-> | [res ->]].
Qed.

(** The [if args.apply:] block.  A mutating effect in its trace comes
    right after the effect that gave the fresh validation its positive
    verdict, with only output and probes in between; if the fresh
    validation's verdict is negative, nothing mutates and the block ends
    by printing that it does not apply. *)
Lemma apply_gate_effects manifest namespace w tr out tr' :
  apply_gate manifest namespace w tr = (out, tr') ->
  exists es,
    tr' = tr ++ es
    /\ (forall pre ef post, es = pre ++ ef :: post -> is_apply ef = true ->
          exists before ev quiet,
            pre = before ++ ev :: quiet
            /\ Forall (fun ef => is_quiet ef = true) before
            /\ verdict_of ev = Some true
            /\ Forall (fun ef => is_quiet ef = true) quiet)
    /\ (verdicts es = [false] ->
          Forall (fun ef => is_apply ef = false) es
          /\ out = Done tt
          /\ last es = Some (Print dry_run_failed_line)).
Proof.
  unfold apply_gate. rewrite io_bind_run. unfold print at 1. rewrite io_bind_run.
  set (requested := Print _). set (tr1 := tr ++ [requested]).
  destruct (validate_manifest_effects manifest namespace w tr1) as (vs & Hvtr & Hv).
  destruct (validate_manifest manifest namespace w tr1) as [[[ok2 out2]|e|c] tr2];
    cbn [fst snd] in Hvtr, Hv; subst tr2; [| |done].
  - destruct Hv as (before & ev & quiet & -> & Hbefore & Hev & Hevna & Hquiet).
    assert (Hbefore' : Forall (fun ef => is_quiet ef = true) (requested :: before))
      by (by constructor).
    destruct ok2; cbn [negb].
    + rewrite io_bind_run. unfold print at 1. rewrite io_bind_run.
      set (proceeding := Print _). set (tr3 := (tr1 ++ _) ++ [proceeding]).
      destruct (apply_manifest_effects manifest namespace w tr3)
        as (aq & tail & Hatr & Haq & Htail & Hout).
      assert (Hquiet' : Forall (fun ef => is_quiet ef = true) (quiet ++ proceeding :: aq)).
      { apply Forall_app; split; [done | by constructor]. }
      destruct (apply_manifest manifest namespace w tr3) as [[[ok_apply apply_out]|e|c] tr4];
        cbn [fst snd] in Hatr, Hout; subst tr4; [| |done].
      * set (rest := [Print apply_out;
                      Print (if negb ok_apply then apply_failed_line else apply_succeeded_line)]).
        destruct (open_gate_shape (requested :: before) ev (quiet ++ proceeding :: aq)
                    tail rest manifest namespace) as [Hsplit Hverdicts];
          [done | done | done | done | done | by repeat constructor |].
        intros Hrun. eexists. split; [|split; [exact Hsplit |]].
        -- rewrite io_bind_run in Hrun. unfold print, tr3, tr1, rest in *.
           destruct ok_apply; cbn [negb fst snd] in *; injection Hrun as _ <-;
             by rewrite <- !app_assoc.
        -- rewrite Hverdicts. done.
      * destruct (open_gate_shape (requested :: before) ev (quiet ++ proceeding :: aq)
                    tail [] manifest namespace) as [Hsplit Hverdicts];
          [done | done | done | done | done | done |].
        intros [= _ <-]. eexists. split; [|split; [exact Hsplit |]].
        -- unfold tr3, tr1. by rewrite app_nil_r, <- !app_assoc.
        -- rewrite Hverdicts. done.
    + intros [= <- <-].
      exists ((requested :: before) ++ ev :: quiet ++ [Print dry_run_failed_line]).
      assert (Hna : Forall (fun ef => is_apply ef = false)
                ((requested :: before) ++ ev :: quiet ++ [Print dry_run_failed_line])).
      { apply Forall_app; split; [by apply quiet_all_not_apply |].
        constructor; [done |]. apply Forall_app; split; [by apply quiet_all_not_apply |].
        by repeat constructor. }
      split; [|split].
      * unfold tr1. by rewrite <- !app_assoc.
      * intros pre ef post Heq Hef. exfalso. by eapply (no_apply_split _ pre ef post).
      * intros _. split; [exact Hna |]. split; [reflexivity |].
        rewrite (app_comm_cons quiet), !app_assoc. apply last_snoc.
  - destruct Hv as [Hna Hnone]. intros [= _ <-].
    exists (requested :: vs).
    split; [|split].
    + unfold tr1. by rewrite <- app_assoc.
    + intros pre ef post Heq Hef. exfalso.
      eapply (no_apply_split _ pre ef post); [|exact Heq | exact Hef]. by constructor.
    + unfold verdicts in *. cbn [omap list_omap app]. by rewrite Hnone.
Qed.

Lemma print_run line w tr : print line w tr = (Done tt, tr ++ [Print line]).
Proof. reflexivity. Qed.

(** A run that never reaches the second validation: nothing mutates. *)
Lemma gated_before_second_validation args out tr :
  Forall (fun ef => is_apply ef = false) tr ->
  (length (verdicts tr) <= 1)%nat ->
  gated args out tr.
Proof.
  intros Hna Hlen. split.
  - intros pre ef post Heq Hef. exfalso. by eapply (no_apply_split tr pre ef post).
  - intros v1 Hv. rewrite Hv in Hlen. simpl in Hlen. lia.
Qed.

(** A run that reaches the [if args.apply:] block after a first verdict. *)
Lemma gated_after_first_validation args manifest namespace w head v1 out tr :
  arg_apply args = true ->
  Forall (fun ef => is_apply ef = false) head ->
  verdicts head = [v1] ->
  apply_gate manifest namespace w head = (out, tr) ->
  gated args out tr.
Proof.
  intros Happly Hna Hv1 (es & -> & Hsplit & Hfail)%apply_gate_effects. split.
  - intros pre ef post Heq Hef. split; [done |].
    destruct (skip_no_apply head es pre ef post Hna Heq Hef) as (pre' & -> & Hes).
    destruct (Hsplit pre' ef post Hes Hef) as (before & ev & quiet & -> & Hbefore & Hev & Hquiet).
    exists (head ++ before), ev, quiet, v1. split; [by rewrite app_assoc |].
    split; [|done]. by rewrite verdicts_app, Hv1, (verdicts_quiet before Hbefore).
  - intros v Hv. rewrite verdicts_app, Hv1 in Hv. injection Hv as -> Hes.
    destruct (Hfail Hes) as (Hna' & -> & Hlast).
    split; [by apply Forall_app |]. split; [done |].
    destruct es as [|ef es] using rev_ind; [done |].
    rewrite app_assoc, last_snoc. by rewrite last_snoc in Hlast.
Qed.

(** Claim C1.  Every run of [main] is gated: a command that mutates the
    cluster is run only when apply was requested and only right after the
    effect that gave the run's second validation, made afresh for the
    apply, its positive verdict, with nothing but output and the probe
    for kubectl in between; and when that second validation's verdict is
    negative, whatever the first one was, the run mutates nothing,
    returns, and its last line reports that it did not apply. *)
Theorem main_applies_only_after_fresh_dry_run
    (w : World) (args : Args) (out : outcome unit) (tr : list Effect) :
  run_main w args = (out, tr) ->
  gated args out tr.
Proof.
  unfold run_main, main. rewrite io_bind_run.
  set (scan := if negb (arg_no_scan args) then _ else _).
  assert (Hscan : quiet_io scan).
  { unfold scan. destruct (arg_no_scan args); cbn [negb]; [apply quiet_ret |].
    apply quiet_bind; [apply quiet_print | intros _].
    apply quiet_bind; [apply quiet_scan_cluster | intros issues; apply quiet_print_all]. }
  destruct (Hscan w []) as (ps & Hps & Hquiet). simpl in Hps.
  destruct (scan w []) as [[[]|e|c] tr0]; cbn [snd] in Hps; subst tr0.
  2,3: intros [= <- <-]; apply gated_before_second_validation;
       [by apply quiet_all_not_apply | rewrite verdicts_quiet by done; simpl; lia].
  destruct (truthy_str (arg_manifest args)).
  2:{ rewrite print_run. intros [= <- <-]. apply gated_before_second_validation.
      - apply Forall_app; split; [by apply quiet_all_not_apply | by repeat constructor].
      - rewrite verdicts_app, verdicts_quiet by done. simpl. lia. }
  rewrite io_bind_run.
  set (manifest := default EmptyString (arg_manifest args)).
  destruct (validate_manifest_effects manifest (arg_namespace args) w ps) as (vs & Hvtr & Hv).
  destruct (validate_manifest manifest (arg_namespace args) w ps) as [[[ok out1]|e|c] tr1];
    cbn [fst snd] in Hvtr, Hv; subst tr1; [| |done].
  2:{ destruct Hv as [Hna Hnone]. intros [= <- <-]. apply gated_before_second_validation.
      - apply Forall_app; split; [by apply quiet_all_not_apply | done].
      - rewrite verdicts_app, verdicts_quiet, Hnone by done. simpl. lia. }
  destruct Hv as (before & ev & quiet & -> & Hbefore & Hev & Hevna & Hquiet').
  rewrite io_bind_run.
  set (report := if negb ok then _ else _).
  assert (Hreport : exists lines, report w (ps ++ before ++ ev :: quiet)
                      = (Done tt, (ps ++ before ++ ev :: quiet) ++ (Print <$> lines))).
  { unfold report. destruct ok; cbn [negb].
    - eexists [_]. apply print_run.
    - eexists [_; _; _; _].
      repeat (rewrite io_bind_run, print_run; cbv beta iota).
      rewrite print_run. by rewrite <- !app_assoc. }
  destruct Hreport as (lines & ->).
  set (head := (ps ++ before ++ ev :: quiet) ++ (Print <$> lines)).
  assert (Hlines : Forall (fun ef => is_quiet ef = true) (Print <$> lines)).
  { apply Forall_fmap, Forall_true. done. }
  assert (Hna : Forall (fun ef => is_apply ef = false) head).
  { unfold head. repeat (apply Forall_app; split); try by apply quiet_all_not_apply.
    constructor; [done | by apply quiet_all_not_apply]. }
  assert (Hverdicts : verdicts head = [ok]).
  { unfold head. rewrite !verdicts_app, verdicts_cons, Hev.
    by rewrite !verdicts_quiet by done. }
  destruct (arg_apply args) eqn:Happly.
  - intros Hrun. by eapply gated_after_first_validation.
  - intros [= <- <-]. apply gated_before_second_validation; [done |].
    rewrite Hverdicts. simpl. lia.
Qed.

(** Two manifest-only runs that request apply.  On the machine whose
    server accepts the first dry-run and rejects the second, the verdicts
    are positive then negative, nothing mutates and the run ends on the
    line that it does not apply.  On the machine that accepts everything,
    [kubectl apply -f app.yaml] runs, after two positive verdicts. *)
Lemma main_applies_only_after_fresh_dry_run_witness :
  (verdicts (run_main changing_world (manifest_only true)).2 = [true; false]
   /\ Forall (fun ef => is_apply ef = false) (run_main changing_world (manifest_only true)).2
   /\ (run_main changing_world (manifest_only true)).1 = Done tt
   /\ last (run_main changing_world (manifest_only true)).2 = Some (Print dry_run_failed_line))
  /\ ((run_main accepting_world (manifest_only true)).2 !! 15%nat
        = Some (SubprocessRun ["kubectl"; "apply"; "-f"; "app.yaml"] (inl accepted))
      /\ exists before ev quiet v1,
           take 15 (run_main accepting_world (manifest_only true)).2 = before ++ ev :: quiet
           /\ verdicts before = [v1]
           /\ verdict_of ev = Some true
           /\ Forall (fun ef => is_quiet ef = true) quiet).
Proof.
  split.
  - split; [reflexivity |].
    exact (proj2 (main_applies_only_after_fresh_dry_run changing_world (manifest_only true)
                    _ _ eq_refl) true eq_refl).
  - split; [reflexivity |].
    exact (proj2 (proj1 (main_applies_only_after_fresh_dry_run accepting_world
                           (manifest_only true) _ _ eq_refl)
                    (take 15 (run_main accepting_world (manifest_only true)).2)
                    (SubprocessRun ["kubectl"; "apply"; "-f"; "app.yaml"] (inl accepted))
                    (drop 16 (run_main accepting_world (manifest_only true)).2)
                    eq_refl eq_refl)).
Defined.

(** * Further properties *)

(** ** Pods, per pod and per container *)

Lemma container_issues_not_pending ns name cs :
  List.filter is_pod_pending (container_issues ns name cs) = [].
Proof.
  unfold container_issues, waiting_issues, terminated_issues, restart_issues.
  rewrite !List.filter_app.
  destruct (waiting (cs_state cs)) as [w|];
    [destruct (reason_in _ _); [|destruct (reason_in _ _); [|destruct (eq_str _ _)]] |];
    (destruct (terminated (cs_last_state cs)) as [t|]; [destruct (_ || _)%bool |]);
    destruct (_ && _)%bool; reflexivity.
Qed.

Lemma pod_issues_pending (p : Pod) :
  List.filter is_pod_pending (pod_issues p)
  = if decide (pod_status_phase p = Some "Pending")
    then [pod_pending (pod_namespace p) (pod_name p) (pod_status_message p)] else [].
Proof.
  unfold pod_issues. rewrite List.filter_app, filter_flat_map, flat_map_nil
    by (intros; apply container_issues_not_pending).
  rewrite app_nil_r. case_decide as Hphase.
  - rewrite Hphase. cbn [eq_str String.eqb Ascii.eqb Bool.eqb List.filter].
    replace (is_pod_pending (pod_pending (pod_namespace p) (pod_name p) (pod_status_message p)))
      with true; [done |].
    symmetry. apply (prefix_app "Pod Pending: ").
  - destruct (pod_status_phase p) as [s|]; [|done]. simpl.
    destruct (String.eqb_spec s "Pending"); [congruence | done].
Qed.

(** Extra X1.  When the listing succeeds, the "Pod Pending" issues of
    [analyze_pods] are exactly one warning per pod whose phase is
    "Pending", in listing order, whatever its containers report; the
    detail quotes the status message, or "none" when it is absent or
    empty. *)
Theorem analyze_pods_pending_once
    (v1 : CoreV1Api) (namespace : option string) (pods : list Pod) :
  list_pods v1 namespace = Ret pods ->
  exists issues,
    analyze_pods v1 namespace = Ret issues
    /\ List.filter is_pod_pending issues
       = flat_map (fun p =>
           if decide (pod_status_phase p = Some "Pending")
           then [pod_pending (pod_namespace p) (pod_name p) (pod_status_message p)]
           else []) pods
    /\ forall ns name message, let it := pod_pending ns name message in
         severity it = "warning"
         /\ detail it = "Phase=Pending. Reason/message: "
                        +:+ match message with
                            | Some (String c s) => String c s
                            | _ => "none"
                            end.
Proof.
  intros Hlist. exists (flat_map pod_issues pods). split; [|split].
  - unfold analyze_pods. by rewrite Hlist.
  - rewrite filter_flat_map. apply flat_map_ext. intros p. apply pod_issues_pending.
  - intros ns name [[|c s]|]; done.
Qed.

(** A pending pod whose container is also crash-looping: one pending
    warning among its three issues. *)
Lemma analyze_pods_pending_once_witness :
  exists issues,
    analyze_pods (client_of (Ret []) (Ret [sample_pod; sample_pending_pod]) (Ret []) (Ret []))
                 None = Ret issues
    /\ length issues = 5%nat
    /\ detail <$> List.filter is_pod_pending issues = ["Phase=Pending. Reason/message: none"].
Proof.
  destruct (analyze_pods_pending_once
              (client_of (Ret []) (Ret [sample_pod; sample_pending_pod]) (Ret []) (Ret []))
              None [sample_pod; sample_pending_pod] eq_refl) as (issues & Hrun & Hfilter & _).
  exists issues. split; [exact Hrun |]. split; [|by rewrite Hfilter].
  injection Hrun as <-. reflexivity.
Defined.

Lemma waiting_issues_at_most_one ns name cname w :
  (length (waiting_issues ns name cname w) <= 1)%nat.
Proof.
  unfold waiting_issues. destruct w as [w|]; [|simpl; lia].
  destruct (reason_in _ _); [simpl; lia |].
  destruct (reason_in _ _); [simpl; lia |].
  destruct (eq_str _ _); simpl; lia.
Qed.

(** Extra X2.  The three waiting rules exclude each other: a container
    gets at most one issue for its waiting state, and with the
    terminated-state rule and the restart-count rule at most three in
    all; the restart-count warning is given exactly when the count
    exceeds 5. *)
Theorem container_issues_bounded (ns : option string) (name : string) (cs : ContainerStatus) :
  (length (waiting_issues ns name (cs_name cs) (waiting (cs_state cs))) <= 1)%nat
  /\ (length (container_issues ns name cs) <= 3)%nat
  /\ restart_issues ns name (cs_name cs) (cs_restart_count cs)
     = if decide (5 < cs_restart_count cs)
       then [high_restart_count ns name (cs_name cs) (cs_restart_count cs)] else [].
Proof.
  split; [apply waiting_issues_at_most_one |]. split.
  - unfold container_issues. rewrite !length_app.
    pose proof (waiting_issues_at_most_one ns name (cs_name cs) (waiting (cs_state cs))).
    assert (length (terminated_issues ns name (cs_name cs) (terminated (cs_last_state cs)))
            <= 1)%nat.
    { unfold terminated_issues. destruct (terminated _) as [t|]; [|simpl; lia].
      destruct (_ || _)%bool; simpl; lia. }
    assert (length (restart_issues ns name (cs_name cs) (cs_restart_count cs)) <= 1)%nat.
    { unfold restart_issues. destruct (_ && _)%bool; simpl; lia. }
    lia.
  - unfold restart_issues. case_decide as Hc.
    + replace (negb (cs_restart_count cs =? 0) && (5 <? cs_restart_count cs)) with true;
        [done |].
      symmetry. apply andb_true_iff.
      split; [apply negb_true_iff, Z.eqb_neq | apply Z.ltb_lt]; lia.
    + replace (5 <? cs_restart_count cs) with false; [by rewrite andb_false_r |].
      symmetry. apply Z.ltb_ge. lia.
Qed.

(** ** Severities and listing failures *)

Lemma Forall_flat_map {A B} (P : B -> Prop) (f : A -> list B) (l : list A) :
  (forall x, Forall P (f x)) -> Forall P (flat_map f l).
Proof.
  intros Hf. induction l as [|x l IH]; simpl; [done |]. by apply Forall_app.
Qed.

Ltac issue_list :=
  first [ by apply Forall_nil
        | apply List.Forall_cons; [first [reflexivity | by left | by right] | by apply Forall_nil] ].

Lemma node_issues_severity (n : Node) :
  Forall (fun it => severity it = "warning" \/ severity it = "info") (node_issues n).
Proof.
  unfold node_issues. apply Forall_app; split; [|apply Forall_app; split].
  - destruct (not_ready _); issue_list.
  - destruct (default false _); issue_list.
  - apply Forall_flat_map. intros t. destruct (_ !! t) as [c|]; [|issue_list].
    destruct (eq_str _ _); issue_list.
Qed.

Lemma pod_issues_severity (p : Pod) :
  Forall (fun it => severity it = "warning") (pod_issues p).
Proof.
  unfold pod_issues. apply Forall_app; split.
  - destruct (eq_str _ _); issue_list.
  - apply Forall_flat_map. intros cs.
    unfold container_issues, waiting_issues, terminated_issues, restart_issues.
    repeat (apply Forall_app; split).
    + destruct (waiting _) as [w|]; [|issue_list].
      destruct (reason_in _ _); [issue_list |].
      destruct (reason_in _ _); [issue_list |].
      destruct (eq_str _ _); issue_list.
    + destruct (terminated _) as [t|]; [|issue_list]. destruct (_ || _)%bool; issue_list.
    + destruct (_ && _)%bool; issue_list.
Qed.

Lemma deployment_issues_severity (d : Deployment) :
  Forall (fun it => severity it = "warning") (deployment_issues d).
Proof.
  unfold deployment_issues. apply Forall_app; split.
  - destruct (negb _); issue_list.
  - apply Forall_flat_map. intros c. destruct (_ && _)%bool; issue_list.
Qed.

Lemma pvc_issues_severity (pvc : PersistentVolumeClaim) :
  Forall (fun it => severity it = "warning") (pvc_issues pvc).
Proof. unfold pvc_issues. destruct (negb _); issue_list. Qed.

Lemma event_issues_severity cutoff (e : CoreEvent) :
  Forall (fun it => severity it = "warning") (event_issues cutoff e).
Proof.
  unfold event_issues. destruct (event_time_of e) as [t|]; [|issue_list].
  destruct (try_timestamp t) as [ts|]; [|issue_list].
  destruct (Qltb _ _); [issue_list |]. destruct (eq_str _ _); issue_list.
Qed.

Lemma handler_error_iff {A} (listing : py (list A)) (what : string)
    (f : A -> list Issue) (issues : list Issue) :
  match listing with
  | Raise (ApiException e) => Ret [listing_failure what e]
  | Raise e => Raise e
  | Ret xs => Ret (flat_map f xs)
  end = Ret issues ->
  (forall x, Forall (fun it => severity it = "warning" \/ severity it = "info") (f x)) ->
  (Exists (fun it => severity it = "error") issues
   <-> exists e, listing = Raise (ApiException e) /\ issues = [listing_failure what e])
  /\ Forall (fun it => severity it = "error" \/ severity it = "warning"
                       \/ severity it = "info") issues.
Proof.
  intros Hrun Hf. destruct listing as [xs|[e| |]]; try done; injection Hrun as <-.
  - assert (Hall : Forall (fun it => severity it = "warning" \/ severity it = "info")
                     (flat_map f xs)) by (by apply Forall_flat_map).
    split; [split |].
    + intros (it & Hin & Herr)%Exists_exists. exfalso.
      destruct (proj1 (Forall_forall _ _) Hall it Hin) as [Hw | Hi]; congruence.
    + by intros (e & ? & _).
    + eapply Forall_impl; [exact Hall | intros it [?|?]; auto].
  - split; [split |].
    + intros _. by exists e.
    + intros _. by left.
    + repeat constructor.
Qed.

Lemma warnings_only {A} (f : A -> list Issue) :
  (forall x, Forall (fun it => severity it = "warning") (f x)) ->
  forall x, Forall (fun it => severity it = "warning" \/ severity it = "info") (f x).
Proof. intros Hf x. eapply Forall_impl; [apply Hf | auto]. Qed.

(** Extra X3.  An issue of severity "error" stands for a failed listing
    and for nothing else: the result of [check_nodes], of
    [check_deployments], of [check_pvcs] and of [collect_events] holds an
    error issue exactly when its listing call raised an API exception,
    and then it is that one issue; the per-object rules give warnings,
    and for a cordoned node an info.  What [analyze_pods] returns holds
    warnings only. *)
Theorem error_issue_iff_listing_failed
    (v1 : CoreV1Api) (apps : AppsV1Api) (now : Q) (since_minutes : Z)
    (namespace : option string) (issues : list Issue) :
  (check_nodes v1 = Ret issues ->
     (Exists (fun it => severity it = "error") issues
      <-> exists e, list_node v1 = Raise (ApiException e)
                    /\ issues = [listing_failure "nodes" e])
     /\ Forall (fun it => severity it = "error" \/ severity it = "warning"
                          \/ severity it = "info") issues)
  /\ (check_deployments apps namespace = Ret issues ->
        (Exists (fun it => severity it = "error") issues
         <-> exists e, list_deployments apps namespace = Raise (ApiException e)
                       /\ issues = [listing_failure "deployments" e])
        /\ Forall (fun it => severity it = "error" \/ severity it = "warning") issues)
  /\ (check_pvcs v1 namespace = Ret issues ->
        (Exists (fun it => severity it = "error") issues
         <-> exists e, list_pvcs v1 namespace = Raise (ApiException e)
                       /\ issues = [listing_failure "PVCs" e])
        /\ Forall (fun it => severity it = "error" \/ severity it = "warning") issues)
  /\ (collect_events v1 now since_minutes namespace = Ret issues ->
        (Exists (fun it => severity it = "error") issues
         <-> exists e, list_events v1 namespace = Raise (ApiException e)
                       /\ issues = [listing_failure "events" e])
        /\ Forall (fun it => severity it = "error" \/ severity it = "warning") issues)
  /\ (analyze_pods v1 namespace = Ret issues ->
        Forall (fun it => severity it = "warning") issues).
Proof.
  split; [|split; [|split; [|split]]].
  - intros Hrun. by apply (handler_error_iff _ _ _ _ Hrun), node_issues_severity.
  - intros Hrun.
    destruct (handler_error_iff _ _ _ _ Hrun (warnings_only _ deployment_issues_severity))
      as [Hiff _].
    split; [exact Hiff |]. unfold check_deployments in Hrun.
    destruct (list_deployments apps namespace) as [deps|[e| |]]; try done;
      injection Hrun as <-; [|by repeat constructor; left].
    eapply Forall_impl; [apply Forall_flat_map, deployment_issues_severity | auto].
  - intros Hrun.
    destruct (handler_error_iff _ _ _ _ Hrun (warnings_only _ pvc_issues_severity))
      as [Hiff _].
    split; [exact Hiff |]. unfold check_pvcs in Hrun.
    destruct (list_pvcs v1 namespace) as [pvcs|[e| |]]; try done;
      injection Hrun as <-; [|by repeat constructor; left].
    eapply Forall_impl; [apply Forall_flat_map, pvc_issues_severity | auto].
  - intros Hrun.
    destruct (handler_error_iff _ _ _ _ Hrun
                (warnings_only _ (event_issues_severity (cutoff_of now since_minutes))))
      as [Hiff _].
    split; [exact Hiff |]. unfold collect_events in Hrun.
    destruct (list_events v1 namespace) as [events|[e| |]]; try done;
      injection Hrun as <-; [|by repeat constructor; left].
    eapply Forall_impl; [apply Forall_flat_map; intros ev; apply event_issues_severity | auto].
  - unfold analyze_pods. destruct (list_pods v1 namespace) as [pods|e]; [|done].
    intros [= <-]. apply Forall_flat_map, pod_issues_severity.
Qed.

(** On the cluster that refuses the claims only, the claim classifier
    returns the error issue; the node classifier returns none. *)
Lemma error_issue_iff_listing_failed_witness :
  Exists (fun it => severity it = "error") [listing_failure "PVCs" forbidden]
  /\ ~ Exists (fun it => severity it = "error") (flat_map node_issues sample_nodes).
Proof.
  split.
  - apply (proj1 (proj1 (proj2 (proj2 (error_issue_iff_listing_failed pvc_refusing_core_v1
             sample_apps sample_now 60 None [listing_failure "PVCs" forbidden]))) eq_refl)).
    by exists forbidden.
  - intros Hex.
    destruct (proj1 (proj1 (proj1 (error_issue_iff_listing_failed pvc_refusing_core_v1
                 sample_apps sample_now 60 None (flat_map node_issues sample_nodes)) eq_refl))
                Hex) as (e & Hlist & _).
    discriminate Hlist.
Defined.

(** Extra X4.  The four handlers catch the API exception only: when the
    listing call fails with any other exception, the classifier raises it
    to its caller instead of returning an error issue. *)
Theorem other_exceptions_escape_classifiers
    (v1 : CoreV1Api) (apps : AppsV1Api) (now : Q) (since_minutes : Z)
    (namespace : option string) (e : exn) :
  is_api_exception e = false ->
  (list_node v1 = Raise e -> check_nodes v1 = Raise e)
  /\ (list_deployments apps namespace = Raise e ->
      check_deployments apps namespace = Raise e)
  /\ (list_pvcs v1 namespace = Raise e -> check_pvcs v1 namespace = Raise e)
  /\ (list_events v1 namespace = Raise e ->
      collect_events v1 now since_minutes namespace = Raise e).
Proof.
  intros He. repeat split; intros Hlist.
  - unfold check_nodes. rewrite Hlist. by destruct e.
  - unfold check_deployments. rewrite Hlist. by destruct e.
  - unfold check_pvcs. rewrite Hlist. by destruct e.
  - unfold collect_events. rewrite Hlist. by destruct e.
Qed.

Lemma other_exceptions_escape_classifiers_witness :
  check_nodes unreachable_core_v1 = Raise unreachable
  /\ check_deployments unreachable_apps_v1 (Some "default") = Raise unreachable
  /\ check_pvcs unreachable_core_v1 None = Raise unreachable
  /\ collect_events unreachable_core_v1 sample_now 60 None = Raise unreachable.
Proof.
  destruct (other_exceptions_escape_classifiers unreachable_core_v1 unreachable_apps_v1
              sample_now 60 None unreachable eq_refl) as (Hn & _ & Hp & He).
  destruct (other_exceptions_escape_classifiers unreachable_core_v1 unreachable_apps_v1
              sample_now 60 (Some "default") unreachable eq_refl) as (_ & Hd & _ & _).
  split; [|split; [|split]]; [apply Hn | apply Hd | apply Hp | apply He]; reflexivity.
Defined.

(** ** The scan as a whole *)

Lemma call_run {A} (m : py A) w tr :
  call m w tr = (match m with Ret a => Done a | Raise e => Uncaught e end, tr).
Proof. reflexivity. Qed.

Lemma load_k8s_config_run w tr :
  config_loads w -> load_k8s_config w tr = (Done tt, tr ++ [Print (config_line w)]).
Proof.
  unfold load_k8s_config, config_line, world, mbind, io_bind.
  intros [Hk | Hi].
  - by rewrite Hk.
  - rewrite Hi. by destruct (load_kube_config w).
Qed.

Lemma handled_check_nodes v1 :
  handled (list_node v1) -> exists issues, check_nodes v1 = Ret issues.
Proof.
  unfold check_nodes. destruct (list_node v1) as [xs|[e| |]]; try done; by eexists.
Qed.

Lemma handled_check_deployments apps namespace :
  handled (list_deployments apps namespace) ->
  exists issues, check_deployments apps namespace = Ret issues.
Proof.
  unfold check_deployments.
  destruct (list_deployments apps namespace) as [xs|[e| |]]; try done; by eexists.
Qed.

Lemma handled_check_pvcs v1 namespace :
  handled (list_pvcs v1 namespace) -> exists issues, check_pvcs v1 namespace = Ret issues.
Proof.
  unfold check_pvcs. destruct (list_pvcs v1 namespace) as [xs|[e| |]]; try done; by eexists.
Qed.

Lemma handled_collect_events v1 now since_minutes namespace :
  handled (list_events v1 namespace) ->
  exists issues, collect_events v1 now since_minutes namespace = Ret issues.
Proof.
  unfold collect_events.
  destruct (list_events v1 namespace) as [xs|[e| |]]; try done; by eexists.
Qed.

(** Extra X5.  When the configuration loads, the pod listing returns and
    every other listing returns or fails with an API exception, the scan
    completes: it returns the results of the five classifiers
    concatenated in the order nodes, pods, deployments, claims, events,
    and prints its six progress lines.  A kind whose listing failed
    contributes its error issue and stops no other kind. *)
Theorem scan_cluster_completes (namespace : option string) (w : World) (tr : list Effect)
    (pods : list Pod) :
  config_loads w ->
  handled (list_node (core_v1 w)) ->
  list_pods (core_v1 w) namespace = Ret pods ->
  handled (list_deployments (apps_v1 w) namespace) ->
  handled (list_pvcs (core_v1 w) namespace) ->
  handled (list_events (core_v1 w) namespace) ->
  exists nodes deps pvcs events,
    check_nodes (core_v1 w) = Ret nodes
    /\ check_deployments (apps_v1 w) namespace = Ret deps
    /\ check_pvcs (core_v1 w) namespace = Ret pvcs
    /\ collect_events (core_v1 w) (utc_now w) 60 namespace = Ret events
    /\ scan_cluster namespace w tr
       = (Done (nodes ++ flat_map pod_issues pods ++ deps ++ pvcs ++ events),
          tr ++ [Print (config_line w);
                 Print "[scan] Checking nodes...";
                 Print "[scan] Checking pods...";
                 Print "[scan] Checking deployments...";
                 Print "[scan] Checking PVCs...";
                 Print "[scan] Collecting warning events (last 60m)..."]).
Proof.
  intros Hconfig Hnodes Hpods Hdeps Hpvcs Hevents.
  destruct (handled_check_nodes _ Hnodes) as (nodes & Hn).
  destruct (handled_check_deployments _ _ Hdeps) as (deps & Hd).
  destruct (handled_check_pvcs _ _ Hpvcs) as (pvcs & Hp).
  destruct (handled_collect_events _ (utc_now w) 60 _ Hevents) as (events & He).
  exists nodes, deps, pvcs, events. repeat (split; [done |]).
  unfold scan_cluster. rewrite io_bind_run, load_k8s_config_run by done.
  unfold world, mbind, io_bind, mret, io_ret. rewrite !print_run, !call_run.
  unfold analyze_pods. rewrite Hn, Hpods, Hd, Hp, He. cbn [py_bind].
  unfold print, call. cbv beta iota zeta. by rewrite <- !app_assoc.
Qed.

(** The claims cannot be listed: the scan still returns every other
    kind's issues around the one error issue. *)
Lemma scan_cluster_completes_witness :
  exists issues,
    (scan_cluster None (sample_cluster_world pvc_refusing_core_v1) []).1 = Done issues
    /\ List.filter (fun it => String.eqb (severity it) "error") issues
       = [listing_failure "PVCs" forbidden]
    /\ length issues = 13%nat.
Proof.
  destruct (scan_cluster_completes None (sample_cluster_world pvc_refusing_core_v1) []
              [sample_pod]) as (nodes & deps & pvcs & events & Hn & Hd & Hp & He & Hrun);
    [by right | done | done | done | done | done |].
  eexists. rewrite Hrun. split; [reflexivity |].
  injection Hn as <-. injection Hd as <-. injection Hp as <-. injection He as <-.
  split; reflexivity.
Defined.

(** ** Runs that end early *)

Lemma scan_cluster_pod_failure namespace w tr e :
  config_loads w ->
  handled (list_node (core_v1 w)) ->
  list_pods (core_v1 w) namespace = Raise e ->
  scan_cluster namespace w tr
  = (Uncaught e,
     tr ++ [Print (config_line w); Print "[scan] Checking nodes...";
            Print "[scan] Checking pods..."]).
Proof.
  intros Hconfig Hnodes Hpods.
  destruct (handled_check_nodes _ Hnodes) as (nodes & Hn).
  unfold scan_cluster. rewrite io_bind_run, load_k8s_config_run by done.
  unfold world, mbind, io_bind, mret, io_ret. rewrite !print_run, !call_run.
  unfold analyze_pods. rewrite Hn, Hpods. cbn [py_bind].
  unfold print, call. cbv beta iota zeta. by rewrite <- !app_assoc.
Qed.

Lemma scan_cluster_config_failure namespace w tr e1 e2 :
  load_kube_config w = Some e1 ->
  load_incluster_config w = Some e2 ->
  scan_cluster namespace w tr
  = (Exit 1, tr ++ [Print ("[k8s] ERROR loading Kubernetes config: " +:+ e2)]).
Proof.
  intros Hk Hi.
  unfold scan_cluster, load_k8s_config, world, sys_exit, print, mbind, io_bind.
  by rewrite Hk, Hi.
Qed.

(** Extra X6.  A failed pod listing ends the whole run: nothing catches
    the exception between [analyze_pods] and the top of [main], so the
    run stops after the line "[scan] Checking pods...", prints no report,
    and never reaches the manifest even when one was given. *)
Theorem pod_listing_failure_ends_run (w : World) (args : Args) (e : exn) :
  arg_no_scan args = false ->
  config_loads w ->
  handled (list_node (core_v1 w)) ->
  list_pods (core_v1 w) (arg_namespace args) = Raise e ->
  run_main w args
  = (Uncaught e,
     [Print "[main] Scanning cluster...";
      Print (config_line w);
      Print "[scan] Checking nodes...";
      Print "[scan] Checking pods..."]).
Proof.
  intros Hscan Hconfig Hnodes Hpods.
  unfold run_main, main. rewrite Hscan. cbn [negb].
  rewrite io_bind_run, io_bind_run, print_run. cbv beta iota.
  by rewrite io_bind_run, (scan_cluster_pod_failure _ _ _ e).
Qed.

Lemma pod_listing_failure_ends_run_witness :
  run_main (sample_cluster_world
              (client_of (Ret sample_nodes) (Raise (ApiException forbidden)) (Ret []) (Ret [])))
           scan_and_apply
  = (Uncaught (ApiException forbidden),
     [Print "[main] Scanning cluster...";
      Print "[k8s] Loaded in-cluster config.";
      Print "[scan] Checking nodes...";
      Print "[scan] Checking pods..."]).
Proof.
  apply (pod_listing_failure_ends_run
           (sample_cluster_world
              (client_of (Ret sample_nodes) (Raise (ApiException forbidden)) (Ret []) (Ret [])))
           scan_and_apply);
    [reflexivity | by right | done | reflexivity].
Defined.

(** Extra X7.  When neither the kubeconfig nor the in-cluster
    configuration can be loaded, a scanning run prints the second
    loader's error and exits with status 1 before any cluster call and
    before the manifest is looked at. *)
Theorem config_failure_exits (w : World) (args : Args) (e1 e2 : string) :
  arg_no_scan args = false ->
  load_kube_config w = Some e1 ->
  load_incluster_config w = Some e2 ->
  run_main w args
  = (Exit 1,
     [Print "[main] Scanning cluster...";
      Print ("[k8s] ERROR loading Kubernetes config: " +:+ e2)]).
Proof.
  intros Hscan Hk Hi. unfold run_main, main. rewrite Hscan. cbn [negb].
  rewrite io_bind_run, io_bind_run, print_run. cbv beta iota.
  by rewrite io_bind_run, (scan_cluster_config_failure _ _ _ e1 e2).
Qed.

Lemma config_failure_exits_witness :
  run_main unconfigured_world scan_and_apply
  = (Exit 1,
     [Print "[main] Scanning cluster...";
      Print "[k8s] ERROR loading Kubernetes config: not in a cluster"]).
Proof.
  exact (config_failure_exits unconfigured_world scan_and_apply
           "no kubeconfig" "not in a cluster" eq_refl eq_refl eq_refl).
Defined.

(** ** Runs that skip the scan *)

Lemma validate_manifest_same_tools manifest namespace w w' tr :
  same_tools w w' ->
  validate_manifest manifest namespace w tr = validate_manifest manifest namespace w' tr.
Proof.
  intros (Hw & Hs & Hl). destruct w, w'. simpl in Hw, Hs, Hl. subst.
  unfold validate_manifest, kubectl_dry_run, kubectl_available, load_documents, run, print,
    call, mbind, io_bind, mret, io_ret.
  cbv beta zeta. cbn [which_kubectl subprocess_run safe_load_all].
  destruct (which_kubectl1 _).
  - by destruct (dry_run_verdict _).
  - by destruct (simple_local_manifest_check _) as [[ok out]|e].
Qed.

Lemma apply_manifest_same_tools manifest namespace w w' tr :
  same_tools w w' ->
  apply_manifest manifest namespace w tr = apply_manifest manifest namespace w' tr.
Proof.
  intros (Hw & Hs & Hl). destruct w, w'. simpl in Hw, Hs, Hl. subst.
  unfold apply_manifest, kubectl_available, run, print, call, mbind, io_bind, mret, io_ret.
  cbv beta zeta. cbn [which_kubectl subprocess_run safe_load_all].
  destruct (which_kubectl1 _); cbn [negb]; [|done].
  cbv beta iota zeta. cbn [subprocess_run].
  match goal with |- context [subprocess_run1 ?n ?c] => destruct (subprocess_run1 n c) end;
    done.
Qed.

Lemma apply_gate_same_tools manifest namespace w w' tr :
  same_tools w w' ->
  apply_gate manifest namespace w tr = apply_gate manifest namespace w' tr.
Proof.
  intros Hsame. unfold apply_gate.
  rewrite !(io_bind_run (print _)), !print_run. cbv beta iota.
  rewrite !(io_bind_run (validate_manifest _ _)).
  rewrite (validate_manifest_same_tools _ _ w w') by done.
  destruct (validate_manifest _ _ w' _) as [[[ok2 out2]|e|c] tr2]; [|done..].
  destruct ok2; cbn [negb]; [|done].
  rewrite !(io_bind_run (print _)), !print_run. cbv beta iota.
  rewrite !(io_bind_run (apply_manifest _ _)).
  rewrite (apply_manifest_same_tools _ _ w w') by done.
  destruct (apply_manifest _ _ w' _) as [[[ok_apply apply_out]|e|c] tr3]; [|done..].
  rewrite !(io_bind_run (print _)), !print_run. cbv beta iota. by destruct ok_apply.
Qed.

(** Extra X8.  With [--no-scan] the run does not depend on the cluster:
    the configuration is not loaded and no listing is made, so two
    machines that answer alike about kubectl, its subprocesses and the
    manifest file give the same outcome and the same trace, whatever
    their configurations and clusters, and even if no configuration could
    be loaded at all. *)
Theorem no_scan_ignores_cluster (w w' : World) (args : Args) :
  arg_no_scan args = true ->
  same_tools w w' ->
  run_main w args = run_main w' args.
Proof.
  intros Hscan Hsame. unfold run_main, main. rewrite Hscan. cbn [negb].
  rewrite !(io_bind_run (mret tt)).
  change ((mret tt : io unit) w []) with (Done tt, @nil Effect).
  change ((mret tt : io unit) w' []) with (Done tt, @nil Effect). cbv beta iota.
  destruct (truthy_str (arg_manifest args)); [|done].
  rewrite !(io_bind_run (validate_manifest _ _)).
  rewrite (validate_manifest_same_tools _ _ w w') by done.
  destruct (validate_manifest _ _ w' _) as [[[ok out]|e|c] tr1]; [|done..].
  destruct (arg_apply args).
  - destruct ok; cbn [negb];
      repeat (rewrite !(io_bind_run (print _)), !print_run; cbv beta iota);
      by apply apply_gate_same_tools.
  - by destruct ok.
Qed.

(** The same validate-and-apply run on the machine whose cluster refuses
    every listing and on one that cannot even load a configuration. *)
Lemma no_scan_ignores_cluster_witness :
  run_main accepting_world (manifest_only true)
  = run_main unconfigured_world (manifest_only true).
Proof.
  apply no_scan_ignores_cluster; [reflexivity | by repeat split].
Defined.

(** ** What a run never does *)

Lemma quiet_harmless {A} (m : io A) : quiet_io m -> harmless_io m.
Proof.
  intros Hm w tr. destruct (Hm w tr) as (ps & Htr & Hps).
  exists ps. split; [done | by apply quiet_all_not_apply].
Qed.

Lemma harmless_bind {A B} (m : io A) (k : A -> io B) :
  harmless_io m -> (forall a, harmless_io (k a)) -> harmless_io (m ≫= k).
Proof.
  intros Hm Hk w tr. rewrite io_bind_run.
  destruct (Hm w tr) as (ps & Htr & Hps).
  destruct (m w tr) as [[a|e|c] tr']; simpl in Htr; subst tr';
    [|by exists ps..].
  destruct (Hk a w (tr ++ ps)) as (qs & Htr & Hqs).
  exists (ps ++ qs). rewrite Htr, app_assoc. split; [done | by apply Forall_app].
Qed.

Lemma harmless_validate_manifest manifest namespace :
  harmless_io (validate_manifest manifest namespace).
Proof.
  intros w tr. destruct (validate_manifest_effects manifest namespace w tr) as (es & Htr & Hes).
  exists es. split; [done |].
  destruct (validate_manifest manifest namespace w tr).1 as [[ok out]|e|c]; [| |done].
  - destruct Hes as (before & ev & quiet & -> & Hbefore & _ & Hev & Hquiet).
    apply Forall_app; split; [by apply quiet_all_not_apply |].
    constructor; [done | by apply quiet_all_not_apply].
  - by destruct Hes.
Qed.

Lemma quiet_scan_part (args : Args) :
  quiet_io (if negb (arg_no_scan args)
            then print "[main] Scanning cluster..." ;;
                 issues ← scan_cluster (arg_namespace args);
                 print_all (pretty_print_issues issues)
            else mret tt).
Proof.
  destruct (arg_no_scan args); cbn [negb]; [apply quiet_ret |].
  apply quiet_bind; [apply quiet_print | intros _].
  apply quiet_bind; [apply quiet_scan_cluster | intros issues; apply quiet_print_all].
Qed.

(** Extra X9.  The script changes nothing unless asked to apply a
    manifest: a run without [--apply], or without a manifest, runs no
    command other than server-side dry-runs, whatever the cluster, the
    tools and the manifest answer.  The validation itself never
    mutates, on either of its two paths. *)
Theorem no_mutation_without_apply (w : World) (args : Args) :
  arg_apply args = false \/ truthy_str (arg_manifest args) = false ->
  Forall (fun ef => is_apply ef = false) (run_main w args).2
  /\ forall manifest namespace, harmless_io (validate_manifest manifest namespace).
Proof.
  intros Hargs. split; [|apply harmless_validate_manifest].
  assert (Hmain : harmless_io (main args)).
  { unfold main. apply harmless_bind; [apply quiet_harmless, quiet_scan_part | intros _].
    destruct (truthy_str (arg_manifest args)) eqn:Hm;
      [|apply quiet_harmless, quiet_print].
    destruct Hargs as [Happly | ?]; [|done]. rewrite Happly.
    apply harmless_bind; [apply harmless_validate_manifest | intros [ok out]].
    apply harmless_bind; [|intros _; apply quiet_harmless, quiet_ret].
    apply quiet_harmless. destruct ok; cbn [negb]; [apply quiet_print |].
    repeat (apply quiet_bind; [apply quiet_print | intros _]). apply quiet_print. }
  destruct (Hmain w []) as (es & Htr & Hes). unfold run_main. by rewrite Htr.
Qed.

(** A validate-only run on the accepting machine: two effects run
    kubectl, both are dry-runs. *)
Lemma no_mutation_without_apply_witness :
  Forall (fun ef => is_apply ef = false) (run_main accepting_world (manifest_only false)).2
  /\ (run_main accepting_world (manifest_only false)).2 !! 2%nat
     = Some (SubprocessRun ["kubectl"; "apply"; "--dry-run=server"; "-f"; "app.yaml"]
               (inl accepted)).
Proof.
  split; [|reflexivity].
  apply (no_mutation_without_apply accepting_world (manifest_only false)). by left.
Defined.

Lemma confined_ret {A} P (a : A) : confined P (mret a).
Proof. intros w tr. exists []. by rewrite app_nil_r. Qed.

Lemma confined_call {A} P (m : py A) : confined P (call m).
Proof. intros w tr. exists []. by rewrite app_nil_r. Qed.

Lemma confined_world P : confined P world.
Proof. intros w tr. exists []. by rewrite app_nil_r. Qed.

Lemma confined_exit {A} P c : confined P (@sys_exit A c).
Proof. intros w tr. exists []. by rewrite app_nil_r. Qed.

Lemma confined_print line : confined is_print (print line).
Proof.
  intros w tr. exists [Print line]. split; [done |].
  constructor; [by exists line | constructor].
Qed.

Lemma confined_bind {A B} P (m : io A) (k : A -> io B) :
  confined P m -> (forall a, confined P (k a)) -> confined P (m ≫= k).
Proof.
  intros Hm Hk w tr. rewrite io_bind_run.
  destruct (Hm w tr) as (ps & Htr & Hps).
  destruct (m w tr) as [[a|e|c] tr']; simpl in Htr; subst tr';
    [|by exists ps..].
  destruct (Hk a w (tr ++ ps)) as (qs & Htr & Hqs).
  exists (ps ++ qs). rewrite Htr, app_assoc. split; [done | by apply Forall_app].
Qed.

Lemma confined_print_all lines : confined is_print (print_all lines).
Proof.
  induction lines as [|l lines IH]; simpl; [apply confined_ret |].
  apply confined_bind; [apply confined_print | done].
Qed.

Lemma confined_scan_cluster namespace : confined is_print (scan_cluster namespace).
Proof.
  unfold scan_cluster. apply confined_bind.
  { unfold load_k8s_config. apply confined_bind; [apply confined_world | intros w].
    destruct (load_kube_config w); [|apply confined_print].
    destruct (load_incluster_config w); [|apply confined_print].
    apply confined_bind; [apply confined_print | intros; apply confined_exit]. }
  intros _.
  repeat (apply confined_bind;
          [first [apply confined_world | apply confined_print | apply confined_call]
          | intros ?]).
  apply confined_ret.
Qed.

(** Extra X10.  A run without a manifest touches neither kubectl nor any
    file: it looks for no tool, runs no subprocess and loads no
    document.  All it leaves in the trace is printed lines, and an empty
    manifest path counts as none. *)
Theorem no_manifest_only_prints (w : World) (args : Args) :
  arg_manifest args = None \/ arg_manifest args = Some EmptyString ->
  Forall is_print (run_main w args).2.
Proof.
  intros Hm.
  assert (Hmain : confined is_print (main args)).
  { unfold main. apply confined_bind.
    - destruct (arg_no_scan args); cbn [negb]; [apply confined_ret |].
      apply confined_bind; [apply confined_print | intros _].
      apply confined_bind; [apply confined_scan_cluster | intros; apply confined_print_all].
    - intros _. destruct Hm as [-> | ->]; apply confined_print. }
  destruct (Hmain w []) as (es & Htr & Hes). unfold run_main. by rewrite Htr.
Qed.

(** A scan of the cluster whose claims cannot be listed: the report is
    printed, its first entry the error, and nothing else happens. *)
Lemma no_manifest_only_prints_witness :
  Forall is_print (run_main (sample_cluster_world pvc_refusing_core_v1) scan_only).2
  /\ (run_main (sample_cluster_world pvc_refusing_core_v1) scan_only).1 = Done tt
  /\ Print (nl +:+ "[1] ERROR - Failed to list PVCs")
     ∈ (run_main (sample_cluster_world pvc_refusing_core_v1) scan_only).2.
Proof.
  split; [|split; [reflexivity |]].
  - apply (no_manifest_only_prints (sample_cluster_world pvc_refusing_core_v1) scan_only).
    by left.
  - vm_compute. do 8 right. left.
Defined.

(** ** The two kubectl calls *)

(** Extra X11.  [apply_manifest] has three ways to end.  Without kubectl
    it runs nothing and returns a failure with the text
    "kubectl not found".  With kubectl it runs [kubectl apply -f] once
    and returns success exactly when the exit status is 0, with standard
    output and error concatenated.  If the command cannot be launched the
    exception is not caught and leaves the function. *)
Theorem apply_manifest_outcomes
    (manifest : string) (namespace : option string) (w : World) (tr : list Effect) :
  let cmd := apply_cmd manifest namespace in
  let running := Print ("[apply] Running: " +:+ join " " cmd) in
  let res := subprocess_run w (length ((tr ++ [Which true]) ++ [running])) cmd in
  (which_kubectl w (length tr) = false ->
     apply_manifest manifest namespace w tr
     = (Done (false, "kubectl not found"),
        tr ++ [Which false;
               Print "[apply] kubectl is required to apply manifests from this script."]))
  /\ (which_kubectl w (length tr) = true ->
        (apply_manifest manifest namespace w tr).2
        = tr ++ [Which true; running; SubprocessRun cmd res]
        /\ (apply_manifest manifest namespace w tr).1
           = match res with
             | inl proc => Done (returncode proc =? 0, stdout proc +:+ stderr proc)
             | inr e => Uncaught (OtherError e)
             end).
Proof.
  cbv zeta. unfold apply_manifest, kubectl_available, run, print, call, mbind, io_bind,
    mret, io_ret.
  split; intros ->; cbn [negb].
  - by rewrite <- !app_assoc.
  - cbv beta iota zeta.
    destruct (subprocess_run w _ _) as [proc|e]; cbn [fst snd]; by rewrite <- !app_assoc.
Qed.

(** On the machine without kubectl nothing is run; on the accepting
    machine the apply command is run and succeeds. *)
Lemma apply_manifest_outcomes_witness :
  apply_manifest "app.yaml" None (world_without_kubectl []) []
  = (Done (false, "kubectl not found"),
     [Which false; Print "[apply] kubectl is required to apply manifests from this script."])
  /\ (apply_manifest "app.yaml" None accepting_world []).1
     = Done (true, "pod/web configured (server dry run)").
Proof.
  split.
  - exact (proj1 (apply_manifest_outcomes "app.yaml" None (world_without_kubectl []) [])
             eq_refl).
  - exact (proj2 (proj2 (apply_manifest_outcomes "app.yaml" None accepting_world [])
                    eq_refl)).
Defined.

(** Extra X12.  When kubectl is found, [validate_manifest] delegates to
    the server-side dry-run and always returns: its verdict is positive
    exactly when the command ran and exited with status 0, a command that
    could not be launched gives a negative verdict with the text
    "Failed to run kubectl: ..." instead of an exception, and the manifest
    file is not read by the script. *)
Theorem validate_manifest_with_kubectl
    (manifest : string) (namespace : option string) (w : World) (tr : list Effect) :
  let validating := Print ("[manifest] Validating manifest: " +:+ manifest) in
  which_kubectl w (length (tr ++ [validating])) = true ->
  exists res,
    validate_manifest manifest namespace w tr
    = (Done (dry_run_verdict res),
       tr ++ [validating; Which true;
              SubprocessRun (dry_run_cmd manifest namespace) res;
              Print (if (dry_run_verdict res).1
                     then "[manifest] kubectl server-side dry-run succeeded. Manifest should be accepted by API server."
                     else "[manifest] kubectl dry-run reported issues:");
              Print (dry_run_verdict res).2])
    /\ ((dry_run_verdict res).1 = true <-> exists proc, res = inl proc /\ returncode proc = 0)
    /\ (forall proc, res = inl proc -> (dry_run_verdict res).2 = stdout proc +:+ stderr proc)
    /\ (forall e, res = inr e -> dry_run_verdict res = (false, "Failed to run kubectl: " +:+ e)).
Proof.
  cbv zeta. intros Hwhich.
  unfold validate_manifest, kubectl_dry_run, kubectl_available, load_documents, run, print,
    call, mbind, io_bind, mret, io_ret.
  rewrite Hwhich. cbv beta iota zeta.
  match goal with |- context [subprocess_run w ?n ?c] => set (res := subprocess_run w n c) end.
  exists res. split; [|split; [|split]].
  - destruct (dry_run_verdict res) as [ok out]. cbn [fst snd]. by rewrite <- !app_assoc.
  - destruct res as [proc|e]; cbn [dry_run_verdict fst].
    + rewrite Z.eqb_eq. split; [intros ?; by exists proc | by intros (? & [= <-] & ?)].
    + split; [done | by intros (? & ? & _)].
  - by intros proc ->.
  - by intros e ->.
Qed.

(** A dry-run that cannot be launched: a negative verdict, no
    exception. *)
Lemma validate_manifest_with_kubectl_witness :
  (validate_manifest "app.yaml" None
     (world_of (fun _ _ => inr "[Errno 13] Permission denied: 'kubectl'")) []).1
  = Done (false, "Failed to run kubectl: [Errno 13] Permission denied: 'kubectl'").
Proof.
  destruct (validate_manifest_with_kubectl "app.yaml" None
              (world_of (fun _ _ => inr "[Errno 13] Permission denied: 'kubectl'")) []
              eq_refl) as (res & Hrun & _).
  rewrite Hrun. cbn [fst].
  injection Hrun as Hres _. rewrite <- Hres. reflexivity.
Defined.

(** ** Sorting again, and the layout of the report *)

Lemma issues_sorted_groups k issues :
  filter (fun it => sort_key it = k) (issues_sorted issues)
  = filter (fun it => sort_key it = k) issues.
Proof. apply sorted_stable, key_leb_total. Qed.

Lemma issues_sorted_sorted issues :
  StronglySorted (by_key sort_key key_leb) (issues_sorted issues).
Proof. apply sorted_sorted; [apply key_leb_total | apply key_leb_trans]. Qed.

Lemma issues_sorted_fixpoint issues :
  StronglySorted (by_key sort_key key_leb) issues -> issues_sorted issues = issues.
Proof.
  intros Hs. eapply (stable_sort_unique sort_key key_leb);
    [apply key_leb_total | apply key_leb_antisym | apply issues_sorted_sorted | done |].
  intros k. apply issues_sorted_groups.
Qed.

(** Extra X13.  Sorting is idempotent, leaves a list that is already in
    report order as it is, and does not care whether parts of its input
    were sorted beforehand: sorting the concatenation of two sorted
    parts gives the same report as sorting the concatenation of the
    parts. *)
Theorem issues_sorted_idempotent (a b : list Issue) :
  issues_sorted (issues_sorted a) = issues_sorted a
  /\ (StronglySorted (by_key sort_key key_leb) a -> issues_sorted a = a)
  /\ issues_sorted (issues_sorted a ++ issues_sorted b) = issues_sorted (a ++ b).
Proof.
  split; [apply issues_sorted_fixpoint, issues_sorted_sorted |].
  split; [apply issues_sorted_fixpoint |].
  eapply (stable_sort_unique sort_key key_leb);
    [apply key_leb_total | apply key_leb_antisym
    | apply issues_sorted_sorted | apply issues_sorted_sorted |].
  intros k. rewrite !issues_sorted_groups, !filter_app. by rewrite !issues_sorted_groups.
Qed.

Lemma issues_sorted_idempotent_witness :
  issues_sorted (issues_sorted sample_issues) = issues_sorted sample_issues
  /\ issues_sorted (issues_sorted (take 3 sample_issues) ++ issues_sorted (drop 3 sample_issues))
     = issues_sorted sample_issues
  /\ issues_sorted (issues_sorted (drop 3 sample_issues))
     = issues_sorted (drop 3 sample_issues).
Proof.
  split; [reflexivity |]. split.
  - exact (proj2 (proj2 (issues_sorted_idempotent (take 3 sample_issues)
                           (drop 3 sample_issues)))).
  - exact (proj1 (proj2 (issues_sorted_idempotent (issues_sorted (drop 3 sample_issues)) []))
             (issues_sorted_sorted (drop 3 sample_issues))).
Defined.

Lemma concat_imap_blocks {A B} (n : nat) (f : nat -> A -> list B) (l : list A) :
  (forall i x, length (f i x) = n) ->
  length (concat (imap f l)) = (n * length l)%nat
  /\ forall i x j, l !! i = Some x -> (j < n)%nat ->
       concat (imap f l) !! (n * i + j)%nat = f i x !! j.
Proof.
  revert f. induction l as [|y l IH]; intros f Hlen.
  - split; [simpl; lia | done].
  - destruct (IH (f ∘ S) (fun i x => Hlen (S i) x)) as [IHlen IHat].
    rewrite imap_cons. cbn [concat]. split.
    + rewrite length_app, IHlen, Hlen. simpl. lia.
    + intros [|i] x j Hi Hj.
      * injection Hi as ->. rewrite Nat.mul_0_r, Nat.add_0_l.
        apply lookup_app_l. by rewrite Hlen.
      * rewrite lookup_app_r by (rewrite Hlen; lia). rewrite Hlen.
        replace (n * S i + j - n)%nat with (n * i + j)%nat by lia.
        by apply IHat.
Qed.

(** Extra X14.  The report of an empty list is the one line that no
    issue was detected.  The report of [n] issues, [n > 0], has [1 + 3n]
    lines: a heading, then for the entry at position [i] of the sorted
    list the three lines at [1 + 3i]: its number [i + 1] with the
    severity in capitals and the title, its detail, its suggestion. *)
Theorem pretty_print_issues_layout (issues : list Issue) :
  pretty_print_issues []
  = [nl +:+ "No issues detected. Cluster looks healthy (based on checks performed)."]
  /\ (issues <> [] ->
      length (pretty_print_issues issues) = (1 + 3 * length issues)%nat
      /\ pretty_print_issues issues !! 0%nat = Some (nl +:+ "Detected issues & suggested fixes:")
      /\ forall i it, issues_sorted issues !! i = Some it ->
           pretty_print_issues issues !! (1 + 3 * i)%nat
           = Some (nl +:+ "[" +:+ str_of_nat (S i) +:+ "] " +:+ upper (severity it)
                   +:+ " - " +:+ title it)
           /\ pretty_print_issues issues !! (2 + 3 * i)%nat
              = Some ("    Detail:  " +:+ detail it)
           /\ pretty_print_issues issues !! (3 + 3 * i)%nat
              = Some ("    Suggestion: " +:+ suggestion it)).
Proof.
  split; [done |]. intros Hne.
  destruct (concat_imap_blocks 3 (fun i it => render_issue (S i) it) (issues_sorted issues))
    as [Hlen Hat]; [done |].
  assert (Hpp : pretty_print_issues issues
                = (nl +:+ "Detected issues & suggested fixes:")
                  :: concat (imap (fun i it => render_issue (S i) it) (issues_sorted issues)))
    by (by destruct issues).
  rewrite Hpp. split; [|split; [done |]].
  - cbn [length]. rewrite Hlen.
    assert (length (issues_sorted issues) = length issues) as ->; [|lia].
    apply Permutation_length, sorted_perm.
  - intros i it Hi. split; [|split].
    + change (1 + 3 * i)%nat with (S (3 * i)). rewrite lookup_cons.
      replace (3 * i)%nat with (3 * i + 0)%nat by lia. by rewrite (Hat i it 0%nat) by (done || lia).
    + change (2 + 3 * i)%nat with (S (S (3 * i))). rewrite lookup_cons.
      replace (S (3 * i))%nat with (3 * i + 1)%nat by lia.
      by rewrite (Hat i it 1%nat) by (done || lia).
    + change (3 + 3 * i)%nat with (S (S (S (3 * i)))). rewrite lookup_cons.
      replace (S (S (3 * i)))%nat with (3 * i + 2)%nat by lia.
      by rewrite (Hat i it 2%nat) by (done || lia).
Qed.

Lemma pretty_print_issues_layout_witness :
  length (pretty_print_issues sample_issues) = 22%nat
  /\ pretty_print_issues sample_issues !! 4%nat = Some (nl +:+ "[2] ERROR - Failed to list events").
Proof.
  destruct (proj2 (pretty_print_issues_layout sample_issues)) as (Hlen & _ & Hat); [done |].
  split; [exact Hlen |].
  exact (proj1 (Hat 1%nat (sample_issue "error" "Failed to list events") eq_refl)).
Defined.

(** ** The local check: what it accepts and when it raises *)

Lemma expected_problems_nil (i : nat) (d : yaml) :
  expected_problems i d = [] <-> complete_document d = true.
Proof.
  destruct d as [| | | | | |entries]; try done. unfold expected_problems, complete_document.
  destruct (dict_has "kind" entries), (has_metadata_name entries); done.
Qed.

Lemma concat_imap_nil {A B} (f : nat -> A -> list B) (l : list A) :
  concat (imap f l) = [] <-> forall i x, l !! i = Some x -> f i x = [].
Proof.
  revert f. induction l as [|y l IH]; intros f; [done |].
  rewrite imap_cons. cbn [concat]. split.
  - intros [Hy Hl]%app_eq_nil [|i] x Hi; [by injection Hi as <- |].
    by apply (proj1 (IH (f ∘ S)) Hl i x).
  - intros H. rewrite (H 0%nat y eq_refl). apply IH. intros i x Hi. by apply (H (S i) x).
Qed.

(** Extra X15.  On a file all of whose documents have, if any, a mapping
    as [metadata], the local check returns, and its verdict is positive
    exactly when every document is a mapping with a [kind] key and a
    [name] key under [metadata]; the output is then
    "Basic YAML checks passed.", and otherwise the problems joined by
    line feeds. *)
Theorem local_check_accepts_complete_documents (docs : list yaml) :
  Forall (fun d => metadata_is_mapping d = true) docs ->
  exists ok out,
    simple_local_manifest_check (inr docs) = Ret (ok, out)
    /\ (ok = true <-> Forall (fun d => complete_document d = true) docs)
    /\ (ok = true -> out = "Basic YAML checks passed.")
    /\ (ok = false ->
        out = join nl (concat (imap (fun i d => expected_problems i d) docs))).
Proof.
  intros Hdocs. unfold simple_local_manifest_check.
  rewrite (documents_problems_expected 0 docs Hdocs). cbn [py_bind Nat.add].
  set (problems := concat (imap (fun j d => expected_problems j d) docs)).
  eexists _, _. split; [reflexivity |].
  assert (Hnil : problems = [] <-> Forall (fun d => complete_document d = true) docs).
  { unfold problems. rewrite concat_imap_nil, Forall_lookup. split.
    - intros H i d Hi. by apply (expected_problems_nil i), H.
    - intros H i d Hi. by apply expected_problems_nil, (H i). }
  split; [|split].
  - rewrite <- Hnil. destruct problems; simpl; [done |]. split; [done | intros [=]].
  - by destruct problems.
  - by destruct problems.
Qed.

Lemma local_check_accepts_complete_documents_witness :
  simple_local_manifest_check (inr [doc_complete; doc_complete])
  = Ret (true, "Basic YAML checks passed.")
  /\ simple_local_manifest_check (inr [doc_complete; YStr "not a mapping"; doc_without_name])
     = Ret (false, "Document 1 is not a mapping" +:+ nl +:+ "Document 2 missing metadata.name").
Proof.
  split.
  - destruct (local_check_accepts_complete_documents [doc_complete; doc_complete])
      as (ok & out & Hrun & Hok & Hout & _); [by repeat constructor |].
    rewrite Hrun. assert (ok = true) as -> by (apply Hok; by repeat constructor).
    by rewrite Hout.
  - reflexivity.
Defined.




(** ** Events, claims, nodes and deployments: when nothing is reported *)

Lemma recent_warning_mono (now : Q) (s1 s2 : Z) (e : CoreEvent) :
  s1 <= s2 -> recent_warning now s1 e -> recent_warning now s2 e.
Proof.
  intros Hs (t & Ht & Hnew & Hty). exists t. split; [done |]. split; [|done].
  intros Hold. apply Hnew.
  assert (inject_Z s1 <= inject_Z s2)%Q by (by rewrite <- Zle_Qle).
  lra.
Qed.

Lemma flat_map_sublist {A B} (f g : A -> list B) (l : list A) :
  (forall x, sublist (f x) (g x)) -> sublist (flat_map f l) (flat_map g l).
Proof.
  intros Hfg. induction l as [|x l IH]; simpl; [constructor | by apply sublist_app].
Qed.

(** Extra X17.  Widening the window never loses an event: with the same
    clock reading and the same listing, the issues of a shorter window
    are a sublist of the issues of a longer one.  The bound is inclusive:
    a Warning whose time is exactly the cutoff is promoted. *)
Theorem collect_events_window_monotone
    (v1 : CoreV1Api) (now : Q) (s1 s2 : Z) (namespace : option string)
    (events : list CoreEvent) :
  list_events v1 namespace = Ret events ->
  s1 <= s2 ->
  (exists l1 l2,
     collect_events v1 now s1 namespace = Ret l1
     /\ collect_events v1 now s2 namespace = Ret l2
     /\ sublist l1 l2)
  /\ forall e t, first_present e = Some t -> ev_type e = Some "Warning" ->
       (timestamp t == now - inject_Z s1 * 60)%Q ->
       event_issues (cutoff_of now s1) e = [event_issue e].
Proof.
  intros Hlist Hs. split.
  - unfold collect_events. rewrite Hlist. eexists _, _. split; [done |]. split; [done |].
    apply flat_map_sublist. intros e. rewrite !event_issues_recent_warning.
    destruct (decide (recent_warning now s1 e)) as [H1|H1].
    + by rewrite decide_True by (by eapply recent_warning_mono).
    + apply sublist_nil_l.
  - intros e t Ht Hty Hts. rewrite event_issues_recent_warning, decide_True; [done |].
    exists t. split; [done |]. split; [|done]. rewrite Hts. apply Qlt_irrefl.
Qed.

(** Under a 60-minute window the sample listing gives two issues, under
    a two-hour window four, the first two among them. *)
Lemma collect_events_window_monotone_witness :
  exists l1 l2,
    collect_events (client_of (Ret []) (Ret []) (Ret []) (Ret sample_events)) sample_now 60 None
    = Ret l1
    /\ collect_events (client_of (Ret []) (Ret []) (Ret []) (Ret sample_events))
         sample_now 120 None = Ret l2
    /\ sublist l1 l2 /\ length l1 = 2%nat /\ length l2 = 4%nat.
Proof.
  destruct (collect_events_window_monotone
              (client_of (Ret []) (Ret []) (Ret []) (Ret sample_events))
              sample_now 60 120 None sample_events eq_refl)
    as [(l1 & l2 & H1 & H2 & Hsub) _]; [lia |].
  exists l1, l2. repeat (split; [done |]).
  injection H1 as <-. injection H2 as <-. split; reflexivity.
Defined.

(** Extra X18.  When the listing succeeds, [check_pvcs] returns one
    warning for each claim whose phase is not exactly "Bound", a claim
    without a phase included, in listing order; it returns the empty
    list exactly when every claim is bound. *)
Theorem check_pvcs_unbound
    (v1 : CoreV1Api) (namespace : option string) (pvcs : list PersistentVolumeClaim) :
  list_pvcs v1 namespace = Ret pvcs ->
  check_pvcs v1 namespace
  = Ret (pvc_not_bound <$> filter (fun p => pvc_status_phase p <> Some "Bound") pvcs)
  /\ (check_pvcs v1 namespace = Ret []
      <-> Forall (fun p => pvc_status_phase p = Some "Bound") pvcs)
  /\ forall p, pvc_status_phase p = None -> detail (pvc_not_bound p) = "phase=None".
Proof.
  intros Hlist. unfold check_pvcs. rewrite Hlist.
  assert (Heq : flat_map pvc_issues pvcs
                = pvc_not_bound <$> filter (fun p => pvc_status_phase p <> Some "Bound") pvcs).
  { clear Hlist. induction pvcs as [|p pvcs IH]; [done |].
    cbn [flat_map]. rewrite filter_cons, IH.
    unfold pvc_issues. case_decide as Hp.
    - assert (negb (eq_str (pvc_status_phase p) "Bound") = true) as ->; [|done].
      destruct (pvc_status_phase p) as [s|]; simpl; [|done].
      destruct (String.eqb_spec s "Bound"); [congruence | done].
    - by rewrite Hp. }
  rewrite Heq. split; [done |]. split.
  - split.
    + intros [= Hnil]. apply fmap_nil_inv in Hnil.
      apply Forall_forall. intros p Hp.
      destruct (decide (pvc_status_phase p = Some "Bound")) as [|Hne]; [done |].
      exfalso. by eapply (filter_nil_not_elem_of _ _ p Hnil).
    + intros Hall. f_equal. clear -Hall.
      induction Hall as [|p pvcs' Hp _ IH]; [done |].
      rewrite filter_cons_False by (by intros []). apply IH.
  - intros p Hp. unfold pvc_not_bound. cbn [detail]. by rewrite Hp.
Qed.

Lemma check_pvcs_unbound_witness :
  check_pvcs (client_of (Ret []) (Ret [])
                (Ret [sample_pvc (Some "Bound"); sample_pvc (Some "Pending"); sample_pvc None])
                (Ret [])) None
  = Ret [pvc_not_bound (sample_pvc (Some "Pending")); pvc_not_bound (sample_pvc None)]
  /\ detail (pvc_not_bound (sample_pvc None)) = "phase=None".
Proof.
  split; [|reflexivity].
  exact (proj1 (check_pvcs_unbound
                  (client_of (Ret []) (Ret [])
                     (Ret [sample_pvc (Some "Bound"); sample_pvc (Some "Pending");
                           sample_pvc None]) (Ret []))
                  None _ eq_refl)).
Defined.

Lemma eq_str_true (o : option string) (lit : string) :
  eq_str o lit = true <-> o = Some lit.
Proof.
  destruct o as [s|]; simpl; [|done].
  destruct (String.eqb_spec s lit); split; congruence.
Qed.

Lemma flat_map_nil_iff {A B} (f : A -> list B) (l : list A) :
  flat_map f l = [] <-> forall x, x ∈ l -> f x = [].
Proof.
  split; [|apply flat_map_nil].
  induction l as [|y l IH]; [by intros _ x ?%elem_of_nil |].
  cbn [flat_map]. intros [Hy Hl]%app_eq_nil x [->|Hx]%elem_of_cons; [done | by apply IH].
Qed.

(** Extra X19.  A node yields no issue exactly when it has a Ready
    condition with status "True", is not cordoned, and none of its disk,
    memory and PID pressure conditions has status "True" (of several
    conditions of one type the last one counts).  A node never yields
    more than five issues. *)
Theorem node_issues_nil_iff (n : Node) :
  (node_issues n = []
   <-> (exists r, node_condition n "Ready" = Some r /\ nc_status r = Some "True")
       /\ default false (node_spec_unschedulable n) = false
       /\ forall t c, t ∈ pressure_types -> node_condition n t = Some c ->
            nc_status c <> Some "True")
  /\ (length (node_issues n) <= 5)%nat.
Proof.
  unfold node_issues, node_condition. split.
  - rewrite conditions_by_type_lookup.
    set (conds := or_list (node_status_conditions n)).
    split.
    + intros [Hready [Hcordon Hpressure]%app_eq_nil]%app_eq_nil.
      split; [|split].
      * destruct (last (filter _ conds)) as [r|]; [|done]. exists r. split; [done |].
        cbn [not_ready] in Hready. apply eq_str_true.
        by destruct (eq_str (nc_status r) "True").
      * by destruct (default false _).
      * intros t c Ht Hc. pose proof (proj1 (flat_map_nil_iff _ _) Hpressure t Ht) as Hnil.
        cbv beta in Hnil. rewrite conditions_by_type_lookup in Hnil. fold conds in Hnil. rewrite Hc in Hnil.
        intros Htrue%eq_str_true. by rewrite Htrue in Hnil.
    + intros ((r & -> & Hr) & -> & Hpressure). cbn [not_ready].
      rewrite (proj2 (eq_str_true _ _) Hr). cbn [negb app].
      apply flat_map_nil. intros t Ht. cbv beta. rewrite conditions_by_type_lookup. fold conds.
      destruct (last (filter _ conds)) as [c|] eqn:Hc; [|done].
      destruct (eq_str (nc_status c) "True") eqn:Hs; [|done].
      apply eq_str_true in Hs. by destruct (Hpressure t c Ht Hc).
  - rewrite !length_app.
    assert (forall b (x : Issue), length (if b : bool then [x] else []) <= 1)%nat
      as Hif by (intros []; simpl; lia).
    pose proof (Hif (not_ready (conditions_by_type (or_list (node_status_conditions n))
                                  !! "Ready"))) as H1.
    pose proof (Hif (default false (node_spec_unschedulable n))) as H2.
    cbn [flat_map]. rewrite !length_app.
    assert (forall t, length match conditions_by_type (or_list (node_status_conditions n)) !! t
                             with
                             | Some c => if eq_str (nc_status c) "True"
                                         then [node_pressure (node_name n) t c] else []
                             | None => []
                             end <= 1)%nat as H3.
    { intros t. destruct (_ !! t) as [c|]; [apply Hif | simpl; lia]. }
    pose proof (H3 "DiskPressure"). pose proof (H3 "MemoryPressure").
    pose proof (H3 "PIDPressure").
    specialize (H1 (node_not_ready (node_name n)
      (conditions_by_type (or_list (node_status_conditions n)) !! "Ready"))).
    specialize (H2 (node_cordoned (node_name n))).
    simpl length in *. lia.
Qed.

(** A node whose last Ready condition says "True", that is not cordoned
    and is under no pressure yields nothing, although an earlier Ready
    condition said "False". *)
Lemma node_issues_nil_iff_witness :
  node_issues {| node_name := "node-d";
                 node_status_conditions :=
                   Some [sample_condition "Ready" "False"; sample_condition "DiskPressure" "False";
                         sample_condition "Ready" "True"];
                 node_spec_unschedulable := None |} = []
  /\ (length (node_issues (sample_node "node-a"
                (Some [sample_condition "Ready" "False";
                       sample_condition "DiskPressure" "True"]))) <= 5)%nat.
Proof.
  split.
  - apply (proj1 (node_issues_nil_iff _)). split; [|split].
    + eexists. split; reflexivity.
    + reflexivity.
    + intros t c Ht Hc.
      apply elem_of_cons in Ht as [-> | Ht]; [by injection Hc as <- |].
      apply elem_of_cons in Ht as [-> | Ht]; [done |].
      apply elem_of_cons in Ht as [-> | Ht]; [done | by apply elem_of_nil in Ht].
  - apply (proj2 (node_issues_nil_iff _)).
Defined.

(** Extra X20.  A deployment yields one "Replica mismatch" warning when
    its counts differ and one "not progressing" warning for each of its
    conditions of type "Progressing" with status "False"; it yields no
    issue exactly when the counts agree and no such condition is
    listed. *)
Theorem deployment_issues_count (d : Deployment) :
  length (deployment_issues d)
  = ((if decide (desired d = available d) then 0 else 1)
     + length (filter stalled (or_list (dep_status_conditions d))))%nat
  /\ (deployment_issues d = []
      <-> desired d = available d
          /\ Forall (fun c => ~ stalled c) (or_list (dep_status_conditions d))).
Proof.
  assert (Hlen : length (deployment_issues d)
    = ((if decide (desired d = available d) then 0 else 1)
       + length (filter stalled (or_list (dep_status_conditions d))))%nat).
  { unfold deployment_issues, desired, available. rewrite !or_0_default, length_app.
    f_equal.
    - destruct (Z.eqb_spec (default 0 (dep_spec_replicas d))
                           (default 0 (dep_status_available_replicas d)));
        case_decide; done.
    - induction (or_list (dep_status_conditions d)) as [|c conds IH]; [done |].
      cbn [flat_map]. rewrite length_app, IH, filter_cons.
      unfold stalled at 2.
      destruct (String.eqb_spec (dc_type c) "Progressing") as [Ht|Ht],
               (String.eqb_spec (dc_status c) "False") as [Hs|Hs]; simpl;
        case_decide as Hst; try done; by destruct Hst. }
  split; [exact Hlen |].
  rewrite <- length_zero_iff_nil, Hlen. split.
  - intros H0. case_decide as Heq; [|lia]. split; [done |].
    assert (Hnil : filter stalled (or_list (dep_status_conditions d)) = [])
      by (apply length_zero_iff_nil; lia).
    apply Forall_forall. intros c Hc Hst. by eapply (filter_nil_not_elem_of _ _ c Hnil).
  - intros [Heq Hall]. rewrite decide_True by done. cbn [Nat.add].
    apply length_zero_iff_nil. clear Hlen.
    induction Hall as [|c conds Hc _ IH]; [done |]. by rewrite filter_cons_False.
Qed.

Lemma deployment_issues_count_witness :
  deployment_issues (sample_deployment (Some 2) (Some 2)) = []
  /\ length (deployment_issues
               {| dep_namespace := Some "default"; dep_name := "web";
                  dep_spec_replicas := Some 3; dep_status_available_replicas := None;
                  dep_status_conditions :=
                    Some [ {| dc_type := "Available"; dc_status := "False";
                              dc_reason := None; dc_message := None |};
                           {| dc_type := "Progressing"; dc_status := "False";
                              dc_reason := Some "ProgressDeadlineExceeded";
                              dc_message := None |} ] |}) = 2%nat.
Proof.
  split.
  - apply (proj2 (deployment_issues_count _)). split; [reflexivity | constructor].
  - exact (proj1 (deployment_issues_count _)).
Defined.
